(** * Scoring functions: adapters, worker protocol, dispatchers and factory

    A shallow embedding of [scoring_functions.py] and the properties of its
    specification.

    Conventions of the embedding.
    - A Python call either returns or raises: [result A].
    - Python floats are idealised as the rationals they denote ([Q]); no
      property below depends on rounding, only on the constants 0.0 and 1.0
      and on which value is stored where.  The conversion to float32 done by
      [np.array(..., dtype=np.float32)] is idealised the same way.
    - RDKit, the pickled classifier, the file system and [pexpect.spawn] are
      external: they are the fields of the class [Chem].
    - Class attributes that the factory may overwrite, the spawned
      subprocesses and standard output form the interpreter state [pystate].
    - What the subprocesses answer, which workers are alive and the order in
      which worker threads finish are chosen by the environment: the parallel
      dispatcher is a function of a list of [tick]s, one per polling pass. *)

From Stdlib Require Import String Ascii List ZArith QArith Bool Lia PeanoNat.
Import ListNotations.
Close Scope Q_scope.
Open Scope string_scope.
Open Scope nat_scope.

(** ** Python results and values *)

Inductive exn : Type :=
| IndexError (msg : string)
| ValueError (msg : string)
| TypeError (msg : string)
| AttributeError (msg : string)
| ZeroDivisionError (msg : string)
| RuntimeError (msg : string)
| OSError (msg : string)
| EOF.

Inductive result (A : Type) : Type :=
| Ok (a : A)
| Raise (e : exn).
Arguments Ok {A} a.
Arguments Raise {A} e.

Definition bind {A B} (r : result A) (k : A -> result B) : result B :=
  match r with
  | Ok a => k a
  | Raise e => Raise e
  end.

Notation "x <- r ;; k" := (bind r (fun x => k))
  (at level 61, r at next level, right associativity).

Inductive pyval : Type :=
| PInt (z : Z)
| PFloat (q : Q)
| PStr (s : string)
| PList (l : list Q).

(** [0.0] and [1.0]. *)
Definition f0 : Q := 0%Q.
Definition f1 : Q := 1%Q.

(** A number as a float, for arithmetic; [None] for a value that is no number. *)
Definition as_float (v : pyval) : option Q :=
  match v with
  | PInt z => Some (inject_Z z)
  | PFloat q => Some q
  | _ => None
  end.

(** ** Strings *)

(** Iterating over a [str] yields its one-character strings. *)
Fixpoint chars (s : string) : list string :=
  match s with
  | EmptyString => []
  | String c s' => String c EmptyString :: chars s'
  end.

Fixpoint mem_char (c : ascii) (s : string) : bool :=
  match s with
  | EmptyString => false
  | String d s' => Ascii.eqb c d || mem_char c s'
  end.

(** [s.lstrip(cs)]: drops the leading characters of [s] that occur in [cs]. *)
Fixpoint lstrip (cs s : string) : string :=
  match s with
  | EmptyString => EmptyString
  | String c s' => if mem_char c cs then lstrip cs s' else s
  end.

(** [prefix_rest p s = Some r] when [s = p ++ r]. *)
Fixpoint prefix_rest (p s : string) : option string :=
  match p, s with
  | EmptyString, _ => Some s
  | String a p', String b s' => if Ascii.eqb a b then prefix_rest p' s' else None
  | String _ _, EmptyString => None
  end.

(** The longest prefix of [s] whose characters satisfy [f], and the rest. *)
Fixpoint span (f : ascii -> bool) (s : string) : string * string :=
  match s with
  | EmptyString => (EmptyString, EmptyString)
  | String c s' =>
      if f c then let (a, b) := span f s' in (String c a, b)
      else (EmptyString, s)
  end.

Definition is_digit (c : ascii) : bool :=
  let n := nat_of_ascii c in (48 <=? n) && (n <=? 57).

Definition is_zero (c : ascii) : bool := Ascii.eqb c "0"%char.

Definition is_empty (s : string) : bool :=
  match s with
  | EmptyString => true
  | _ => false
  end.

(** The number written by a string of decimal digits, after [acc]. *)
Fixpoint digits_value (acc : Z) (s : string) : Z :=
  match s with
  | EmptyString => acc
  | String c s' => digits_value (10 * acc + (Z.of_nat (nat_of_ascii c) - 48)) s'
  end.

(** [float(s)] on the plain decimal literals (digits with at most one point
    and at least one digit), the only strings the worker passes to it (see
    [float_argument_plain]); [ValueError] otherwise. *)
Definition float_of_string (s : string) : result Q :=
  let (ip, r) := span is_digit s in
  let fp :=
    match r with
    | EmptyString => Some EmptyString
    | String c r' =>
        if Ascii.eqb c "."%char then
          let (d, r'') := span is_digit r' in
          if is_empty r'' then Some d else None
        else None
    end in
  match fp with
  | Some d =>
      if is_empty ip && is_empty d then
        Raise (ValueError "could not convert string to float")
      else
        Ok (Qred (Qmake (digits_value 0 (ip ++ d))
                        (Z.to_pos (10 ^ Z.of_nat (String.length d)))))
  | None => Raise (ValueError "could not convert string to float")
  end.

(** ** The external collaborators *)

(** RDKit ([Chem], [AllChem], [DataStructs], [Descriptors]), the pickled
    scikit-learn classifier, [open] with [pickle.load], and [pexpect.spawn].
    [MolFromSmiles] returns [None] for a descriptor that does not parse.
    [pexpect_spawn cmd] is [Ok alive] when the command starts, [alive] being
    what [isalive()] answers right after. *)
Class Chem : Type := {
  Mol : Type;
  Fingerprint : Type;
  Classifier : Type;
  MolFromSmiles : string -> option Mol;
  GetMorganFingerprint : Mol -> Z -> Fingerprint;
  TanimotoSimilarity : Fingerprint -> Fingerprint -> Q;
  MolLogP : Mol -> Q;
  GetNonzeroElements : Fingerprint -> list (Z * Z);
  predict_proba : Classifier -> list Z -> list Q;
  pickle_load : string -> result Classifier;
  pexpect_spawn : string -> result bool
}.

(** ** Interpreter state *)

Record pystate : Type := {
  tanimoto_k : pyval;                         (* tanimoto.k *)
  tanimoto_query_structure : option pyval;    (* tanimoto.query_structure, once set *)
  activity_model_clf_path : pyval;            (* activity_model.clf_path *)
  spawned : list string;                      (* commands given to pexpect.spawn *)
  stdout : list string                        (* lines printed *)
}.

(** The state right after the module is imported. *)
Definition initial_state : pystate :=
  {| tanimoto_k := PFloat (7 # 10);
     tanimoto_query_structure := None;
     activity_model_clf_path := PStr "data/clf.pkl";
     spawned := [];
     stdout := [] |}.

Definition print (line : string) (st : pystate) : pystate :=
  {| tanimoto_k := tanimoto_k st;
     tanimoto_query_structure := tanimoto_query_structure st;
     activity_model_clf_path := activity_model_clf_path st;
     spawned := spawned st;
     stdout := stdout st ++ [line] |}.

Definition record_spawn (cmd : string) (st : pystate) : pystate :=
  {| tanimoto_k := tanimoto_k st;
     tanimoto_query_structure := tanimoto_query_structure st;
     activity_model_clf_path := activity_model_clf_path st;
     spawned := spawned st ++ [cmd];
     stdout := stdout st |}.

(** ** Oracle adapters *)

Section Adapters.
Context {chem : Chem}.

(** *** tanimoto *)

Definition tanimoto_kwargs : list string := ["k"; "query_structure"].

Definition structures : list (string * string) :=
  [ ("Celebrex", "C1(S(N)(=O)=O)=CC=C(N2C(C3=CC=C(C)C=C3)=CC(C(F)(F)F)=N2)C=C1");
    ("Osimertinib", "CN1C=C(C2=CC=CC=C21)C3=NC(=NC=C3)NC4=C(C=C(C(=C4)NC(=O)C=C)N(C)CCN(C)C)OC");
    ("Fexofenadine", "CC(C)(C1=CC=C(C=C1)C(CCCN2CCC(CC2)C(C3=CC=CC=C3)(C4=CC=CC=C4)O)O)C(=O)O");
    ("Ranolazine", "CC1=C(C(=CC=C1)C)NC(=O)CN2CCN(CC2)CC(COC3=CC=CC=C3OC)O");
    ("Perindopril", "CCCC(C(=O)O)NC(C)C(=O)N1C2CCCCC2CC1C(=O)O");
    ("Amlodipine", "CCOC(=O)C1=C(NC(=C(C1C2=CC=CC=C2Cl)C(=O)OC)C)COCCN");
    ("Sitagliptin", "C1CN2C(=NN=C2C(F)(F)F)CN1C(=O)CC(CC3=CC(=C(C=C3F)F)F)N");
    ("Zaleplon", "CCN(C1=CC=CC(=C1)C2=CC=NC3=C(C=NN23)C#N)C(=O)C") ].

(** [d.get(key)] on a dict given by its items. *)
Fixpoint dict_get {V : Type} (d : list (string * V)) (key : string) : option V :=
  match d with
  | [] => None
  | (k, v) :: d' => if String.eqb k key then Some v else dict_get d' key
  end.

(** A [tanimoto] instance: [query_structure] is always assigned (possibly
    [None]); [query_fp] is [None] when [__init__] never assigned the
    attribute. *)
Record tanimoto : Type := {
  query_structure : option string;
  query_fp : option Fingerprint
}.

(** [tanimoto.__init__(self, query_structure)]: the instance, or the
    exception, and the state after. *)
Definition tanimoto_init (name : string) (st : pystate)
  : result tanimoto * pystate :=
  let qs := dict_get structures name in
  match qs with
  | Some s =>
      if is_empty s then
        (Ok {| query_structure := qs; query_fp := None |},
         print "can't find this structure" st)
      else
        match MolFromSmiles s with
        | Some query_mol =>
            (Ok {| query_structure := qs;
                   query_fp := Some (GetMorganFingerprint query_mol 2) |}, st)
        | None => (Raise (TypeError "GetMorganFingerprint(NoneType, int)"), st)
        end
  | None =>
      (Ok {| query_structure := None; query_fp := None |},
       print "can't find this structure" st)
  end.

(** [min(score, self.k) / self.k]. *)
Definition cap_and_scale (score : Q) (k : pyval) : result Q :=
  match as_float k with
  | None => Raise (TypeError "'<' not supported")
  | Some kf =>
      let m := if Qle_bool score kf then score else kf in
      if Qeq_bool kf 0 then Raise (ZeroDivisionError "float division by zero")
      else Ok (m / kf)%Q
  end.

(** The body of the loop of [tanimoto.__call__] for one molecule. *)
Definition tanimoto_score (k : pyval) (self : tanimoto) (mol : option Mol)
  : result Q :=
  match mol with
  | Some m =>
      let fp := GetMorganFingerprint m 2 in
      match query_fp self with
      | None => Raise (AttributeError "'tanimoto' object has no attribute 'query_fp'")
      | Some qfp => cap_and_scale (TanimotoSimilarity qfp fp) k
      end
  | None => Ok f0
  end.

Fixpoint tanimoto_loop (k : pyval) (self : tanimoto) (mol_list : list (option Mol))
  : result (list Q) :=
  match mol_list with
  | [] => Ok []
  | mol :: rest =>
      score <- tanimoto_score k self mol ;;
      resluts <- tanimoto_loop k self rest ;;
      Ok (score :: resluts)
  end.

(** [tanimoto.__call__(self, smiles)]; [k] is the class attribute [tanimoto.k]
    at the time of the call. *)
Definition tanimoto_call (k : pyval) (self : tanimoto) (smiles : list string)
  : result (list Q) :=
  tanimoto_loop k self (map MolFromSmiles smiles).

(** *** logP *)

Definition logP_score (mol : option Mol) : Q :=
  match mol with
  | Some m =>
      let logp := MolLogP m in
      if Qle_bool 0 logp && Qle_bool logp 3 then f1 else f0
  | None => f0
  end.

(** [logP.__call__(self, smiles)]. *)
Definition logP_call (smiles : list string) : list Q :=
  map logP_score (map MolFromSmiles smiles).

(** *** activity_model *)

Definition activity_model_kwargs : list string := ["clf_path"].

Record activity_model : Type := { clf : Classifier }.

(** [activity_model.__init__(self)]: opens and unpickles [clf_path], a
    string (a path given as a file descriptor is not modelled). *)
Definition activity_model_init (st : pystate) : result activity_model * pystate :=
  match activity_model_clf_path st with
  | PStr path => (c <- pickle_load path ;; Ok {| clf := c |}, st)
  | _ => (Raise (TypeError "expected str, bytes or os.PathLike object"), st)
  end.

(** Wrap-around of a numpy [int32]. *)
Definition wrap32 (z : Z) : Z := ((z + 2 ^ 31) mod 2 ^ 32 - 2 ^ 31)%Z.

Fixpoint add_at (i : nat) (v : Z) (row : list Z) : list Z :=
  match row, i with
  | [], _ => []
  | x :: row', O => wrap32 (x + v) :: row'
  | x :: row', S i' => x :: add_at i' v row'
  end.

(** [activity_model.fingerprints_from_mol(mol)]: the row of the (1, 2048) array. *)
Definition fingerprints_from_mol (mol : Mol) : list Z :=
  let fp := GetMorganFingerprint mol 3 in
  let size := 2048%Z in
  fold_left (fun nfp '(idx, v) => add_at (Z.to_nat (idx mod size)) v nfp)
            (GetNonzeroElements fp)
            (repeat 0%Z (Z.to_nat size)).

(** [activity_model.__call__(self, smile)]. *)
Definition activity_model_call (self : activity_model) (smile : string) : result Q :=
  match MolFromSmiles smile with
  | Some mol =>
      let fp := fingerprints_from_mol mol in
      match nth_error (predict_proba (clf self) fp) 1 with
      | Some score => Ok score
      | None => Raise (IndexError "index 1 is out of bounds for axis 1")
      end
  | None => Ok f0
  end.

End Adapters.

(** ** Worker *)

(** What one request/response exchange with the subprocess gives:
    [received] is the text in the pexpect buffer when a pattern first
    matches (or all that arrived, when none does), [closed] says that the
    subprocess closed its output (it is dead) before anything matched. *)
Record exchange : Type := {
  received : string;
  closed : bool
}.

(** The first pattern of [expect], anchored at the start of [s]:
    [re.escape(smile) + " 1\.0+|[0]\.[0-9]+"], that is, the descriptor
    followed by [" 1."] and zeros, or else ["0."] and digits alone. *)
Definition match_score (smile s : string) : option string :=
  let second :=
    match prefix_rest "0." s with
    | Some rest =>
        let (ds, _) := span is_digit rest in
        if is_empty ds then None else Some ("0." ++ ds)
    | None => None
    end in
  match prefix_rest (smile ++ " 1.") s with
  | Some rest =>
      let (zs, _) := span is_zero rest in
      if is_empty zs then second else Some (smile ++ " 1." ++ zs)
  | None => second
  end.

(** The second pattern, ['None'], anchored at the start of [s]. *)
Definition match_none (s : string) : option string :=
  match prefix_rest "None" s with
  | Some _ => Some "None"
  | None => None
  end.

(** [re.search]: the leftmost position of [s] where the pattern matches,
    counted from [pos], with the text matched. *)
Fixpoint re_search (m : string -> option string) (s : string) (pos : nat)
  : option (nat * string) :=
  match m s with
  | Some t => Some (pos, t)
  | None =>
      match s with
      | EmptyString => None
      | String _ s' => re_search m s' (S pos)
      end
  end.

(** [self.proc.expect([score_re, 'None', pexpect.TIMEOUT])]: the index of the
    pattern whose match starts first (the earlier pattern on a tie) with
    [self.proc.after]; index 2 on a timeout; [EOF] is not among the patterns
    and is raised. *)
Definition expect (smile : string) (ex : exchange) : result (nat * string) :=
  match re_search (match_score smile) (received ex) 0,
        re_search match_none (received ex) 0 with
  | Some (p0, t0), Some (p1, t1) => if p1 <? p0 then Ok (1, t1) else Ok (0, t0)
  | Some (_, t0), None => Ok (0, t0)
  | None, Some (_, t1) => Ok (1, t1)
  | None, None => if closed ex then Raise EOF else Ok (2, "")
  end.

(** The score computed by [Worker.__call__] before it is stored. *)
Definition Worker_score (smile : string) (ex : exchange) : result Q :=
  out <- expect smile ex ;;
  let (output, after) := out in
  if output =? 0 then float_of_string (lstrip (smile ++ " ") after)
  else Ok f0.

(** [result_list[index] = v]. *)
Fixpoint list_set {A : Type} (l : list A) (index : nat) (v : A) : result (list A) :=
  match l, index with
  | [], _ => Raise (IndexError "list assignment index out of range")
  | _ :: l', O => Ok (v :: l')
  | x :: l', S i => l'' <- list_set l' i v ;; Ok (x :: l'')
  end.

(** [Worker.__call__(self, smile, index, result_list)]: the list after the
    call, or the exception that ends the call. *)
Definition Worker_call (smile : string) (index : nat) (result_list : list pyval)
                       (ex : exchange) : result (list pyval) :=
  score <- Worker_score smile ex ;;
  list_set result_list index (PFloat score).

(** ** Arrays *)

(** [np.array(scores, dtype=np.float32)]: one-dimensional on numbers,
    two-dimensional on lists of one length. *)
Inductive ndarray : Type :=
| Arr1 (a : list Q)
| Arr2 (rows : list (list Q)).

Definition ndarray_len (a : ndarray) : nat :=
  match a with
  | Arr1 l => length l
  | Arr2 rows => length rows
  end.

Fixpoint all_floats (l : list pyval) : option (list Q) :=
  match l with
  | [] => Some []
  | v :: l' =>
      match as_float v, all_floats l' with
      | Some q, Some qs => Some (q :: qs)
      | _, _ => None
      end
  end.

Fixpoint all_rows (width : nat) (l : list pyval) : option (list (list Q)) :=
  match l with
  | [] => Some []
  | PList r :: l' =>
      if length r =? width then
        match all_rows width l' with
        | Some rs => Some (r :: rs)
        | None => None
        end
      else None
  | _ :: _ => None
  end.

Definition np_array (scores : list pyval) : result ndarray :=
  match all_floats scores with
  | Some qs => Ok (Arr1 qs)
  | None =>
      match scores with
      | PList r :: _ =>
          match all_rows (length r) scores with
          | Some rows => Ok (Arr2 rows)
          | None => Raise (ValueError "setting an array element with a sequence")
          end
      | _ => Raise (ValueError "could not convert to float")
      end
  end.

(** ** The parallel dispatcher *)

Record Worker : Type := { proc : string }.

Record Multiprocessing : Type := {
  n : option Z;
  workers : list Worker
}.

(** A running worker thread: [threading.Thread(target=self.workers[n],
    name=str(n), args=(smile, idx, scores))]. *)
Record thread : Type := {
  th_name : nat;
  th_smile : string;
  th_index : nat
}.

(** What the environment decides for one pass of the polling loop:
    [alive i] is what [self.workers[i].is_alive()] answers in this pass;
    [finished] lists, in the order of completion, the workers whose threads
    end before the pass looks at [threading.enumerate()] (a worker with no
    running thread may be listed, to no effect);
    [reply i smile] is the exchange of worker [i] on the request [smile]. *)
Record tick : Type := {
  alive : nat -> bool;
  finished : list nat;
  reply : nat -> string -> exchange
}.

(** The variables of [Multiprocessing.__call__] and the running threads. *)
Record mstate : Type := {
  scores : list pyval;
  smiles_copy : list string;
  threads : list thread
}.

Definition alive_workers (self : Multiprocessing) (t : tick) : list nat :=
  filter (alive t) (seq 0 (length (workers self))).

(** [l.pop()]: the last element and the list without it. *)
Fixpoint pop {A : Type} (l : list A) : option (A * list A) :=
  match l with
  | [] => None
  | x :: l' =>
      match pop l' with
      | None => Some (x, [])
      | Some (y, r) => Some (y, x :: r)
      end
  end.

(** A thread runs [Worker.__call__] on the shared list; an exception ends
    the thread and nothing else. *)
Definition run_thread (t : tick) (th : thread) (result_list : list pyval)
  : list pyval :=
  match Worker_call (th_smile th) (th_index th) result_list
                    (reply t (th_name th) (th_smile th)) with
  | Ok l => l
  | Raise _ => result_list
  end.

Fixpoint take_thread (i : nat) (ths : list thread) : option (thread * list thread) :=
  match ths with
  | [] => None
  | th :: ths' =>
      if th_name th =? i then Some (th, ths')
      else
        match take_thread i ths' with
        | Some (x, r) => Some (x, th :: r)
        | None => None
        end
  end.

(** The thread of worker [i], when there is one, runs to its end. *)
Definition finish (t : tick) (st : mstate) (i : nat) : mstate :=
  match take_thread i (threads st) with
  | Some (th, rest) =>
      {| scores := run_thread t th (scores st);
         smiles_copy := smiles_copy st;
         threads := rest |}
  | None => st
  end.

Definition settle (t : tick) (st : mstate) : mstate :=
  fold_left (finish t) (finished t) st.

(** [for n in free_threads: if smiles_copy: ...]. *)
Fixpoint dispatch (free_threads : list nat) (st : mstate) : mstate :=
  match free_threads with
  | [] => st
  | i :: free' =>
      match pop (smiles_copy st) with
      | Some (smile, rest) =>
          let idx := length rest in
          dispatch free'
            {| scores := scores st;
               smiles_copy := rest;
               threads := threads st ++
                          [{| th_name := i; th_smile := smile; th_index := idx |}] |}
      | None => dispatch free' st
      end
  end.

(** [[i for i in alive_procs if i not in used_threads]]. *)
Definition not_in (used_threads alive_procs : list nat) : list nat :=
  filter (fun i => negb (existsb (Nat.eqb i) used_threads)) alive_procs.

Definition all_dead : exn := RuntimeError "All subprocesses are dead, exiting.".

(** One pass of [while smiles_copy:]. *)
Definition iteration (self : Multiprocessing) (t : tick) (st : mstate)
  : result mstate :=
  let alive_procs := alive_workers self t in
  match alive_procs with
  | [] => Raise all_dead
  | _ :: _ =>
      let st' := settle t st in
      let used_threads := map th_name (threads st') in
      let free_threads := not_in used_threads alive_procs in
      Ok (dispatch free_threads st')
  end.

(** The polling loop, one [tick] per pass; [None] when the passes given do
    not suffice to empty the queue. *)
Fixpoint loop (self : Multiprocessing) (trace : list tick) (st : mstate)
  : option (result mstate) :=
  match smiles_copy st with
  | [] => Some (Ok st)
  | _ :: _ =>
      match trace with
      | [] => None
      | t :: trace' =>
          match iteration self t st with
          | Ok st' => loop self trace' st'
          | Raise e => Some (Raise e)
          end
      end
  end.

(** The final joins: the threads of [finished] end first, in that order,
    then the others, in the order of [threading.enumerate()]. *)
Definition join (t : tick) (st : mstate) : mstate :=
  let st' := settle t st in
  {| scores := fold_left (fun l th => run_thread t th l) (threads st') (scores st');
     smiles_copy := smiles_copy st';
     threads := [] |}.

Definition start (smiles : list string) : mstate :=
  {| scores := repeat (PInt 0) (length smiles);
     smiles_copy := smiles;
     threads := [] |}.

(** [Multiprocessing.__call__(self, smiles)] under the passes [trace] and the
    final pass [last]. *)
Definition Multiprocessing_call (self : Multiprocessing) (smiles : list string)
                                (trace : list tick) (last : tick)
  : option (result ndarray) :=
  match loop self trace (start smiles) with
  | None => None
  | Some (Raise e) => Some (Raise e)
  | Some (Ok st) => Some (np_array (scores (join last st)))
  end.

(** ** The single-process dispatcher and the factory *)

Section Factory.
Context {chem : Chem}.

Inductive adapter_class : Type :=
| tanimoto_class
| logP_class
| activity_model_class.

Inductive adapter : Type :=
| tanimoto_obj (self : tanimoto)
| logP_obj
| activity_model_obj (self : activity_model).

Definition class_name (c : adapter_class) : string :=
  match c with
  | tanimoto_class => "tanimoto"
  | logP_class => "logP"
  | activity_model_class => "activity_model"
  end.

(** [cls()], a call with no argument. *)
Definition instantiate (c : adapter_class) (st : pystate) : result adapter * pystate :=
  match c with
  | tanimoto_class =>
      (Raise (TypeError "__init__() missing 1 required positional argument: 'query_structure'"),
       st)
  | logP_class => (Ok logP_obj, st)
  | activity_model_class =>
      let (r, st') := activity_model_init st in
      (self <- r ;; Ok (activity_model_obj self), st')
  end.

(** [self.scoring_function(smile)] with [smile] one descriptor: the batch
    adapters iterate over its characters. *)
Definition adapter_call (st : pystate) (a : adapter) (smile : string) : result pyval :=
  match a with
  | tanimoto_obj self =>
      l <- tanimoto_call (tanimoto_k st) self (chars smile) ;; Ok (PList l)
  | logP_obj => Ok (PList (logP_call (chars smile)))
  | activity_model_obj self =>
      q <- activity_model_call self smile ;; Ok (PFloat q)
  end.

Record Singleprocessing : Type := { scoring_function : adapter }.

Definition Singleprocessing_init (c : adapter_class) (st : pystate)
  : result Singleprocessing * pystate :=
  let (r, st') := instantiate c st in
  (a <- r ;; Ok {| scoring_function := a |}, st').

Fixpoint comprehension {A B : Type} (f : A -> result B) (l : list A) : result (list B) :=
  match l with
  | [] => Ok []
  | x :: l' => y <- f x ;; ys <- comprehension f l' ;; Ok (y :: ys)
  end.

(** [Singleprocessing.__call__(self, smiles)]. *)
Definition Singleprocessing_call (st : pystate) (self : Singleprocessing)
                                 (smiles : list string) : result ndarray :=
  scores <- comprehension (adapter_call st (scoring_function self)) smiles ;;
  np_array scores.

(** [Worker.__init__]: spawns the subprocess and prints whether it is alive. *)
Definition Worker_init (scoring_function : string) (st : pystate)
  : result Worker * pystate :=
  let cmd := "./multiprocess.py " ++ scoring_function in
  match pexpect_spawn cmd with
  | Ok is_alive =>
      (Ok {| proc := cmd |},
       print (if is_alive then "True" else "False") (record_spawn cmd st))
  | Raise e => (Raise e, st)
  end.

Fixpoint spawn_workers (count : nat) (scoring_function : string) (st : pystate)
  : result (list Worker) * pystate :=
  match count with
  | O => (Ok [], st)
  | S count' =>
      match Worker_init scoring_function st with
      | (Ok w, st') =>
          let (r, st'') := spawn_workers count' scoring_function st' in
          (ws <- r ;; Ok (w :: ws), st'')
      | (Raise e, st') => (Raise e, st')
      end
  end.

(** [Multiprocessing.__init__]: [range(None)] is a [TypeError], a negative
    count gives no worker. *)
Definition Multiprocessing_init (num_processes : option Z) (scoring_function : string)
                                (st : pystate) : result Multiprocessing * pystate :=
  match num_processes with
  | None => (Raise (TypeError "'NoneType' object cannot be interpreted as an integer"), st)
  | Some z =>
      let (r, st') := spawn_workers (Z.to_nat z) scoring_function st in
      (ws <- r ;; Ok {| n := num_processes; workers := ws |}, st')
  end.

Inductive dispatcher : Type :=
| Single (d : Singleprocessing)
| Multi (d : Multiprocessing).

Definition scoring_function_classes : list adapter_class :=
  [tanimoto_class; activity_model_class].

(** [name in scoring_functions], the names of the registered classes. *)
Definition registered (name : string) : bool :=
  existsb (String.eqb name) (map class_name scoring_function_classes).

(** [cls.kwargs]; the class [logP] has no such attribute. *)
Definition class_kwargs (c : adapter_class) : result (list string) :=
  match c with
  | tanimoto_class => Ok tanimoto_kwargs
  | activity_model_class => Ok activity_model_kwargs
  | logP_class => Raise (AttributeError "type object 'logP' has no attribute 'kwargs'")
  end.

(** [setattr(cls, k, v)] for a key [k] of [cls.kwargs]. *)
Definition setattr (c : adapter_class) (k : string) (v : pyval) (st : pystate) : pystate :=
  match c with
  | tanimoto_class =>
      if String.eqb k "k" then
        {| tanimoto_k := v;
           tanimoto_query_structure := tanimoto_query_structure st;
           activity_model_clf_path := activity_model_clf_path st;
           spawned := spawned st;
           stdout := stdout st |}
      else
        {| tanimoto_k := tanimoto_k st;
           tanimoto_query_structure := Some v;
           activity_model_clf_path := activity_model_clf_path st;
           spawned := spawned st;
           stdout := stdout st |}
  | activity_model_class =>
      {| tanimoto_k := tanimoto_k st;
         tanimoto_query_structure := tanimoto_query_structure st;
         activity_model_clf_path := v;
         spawned := spawned st;
         stdout := stdout st |}
  | logP_class => st
  end.

(** [for k, v in kwargs.items(): if k in cls.kwargs: setattr(cls, k, v)]. *)
Fixpoint apply_overrides (c : adapter_class) (kwargs : list (string * pyval))
                         (st : pystate) : result unit * pystate :=
  match kwargs with
  | [] => (Ok tt, st)
  | (k, v) :: kwargs' =>
      match class_kwargs c with
      | Ok allowed =>
          if existsb (String.eqb k) allowed
          then apply_overrides c kwargs' (setattr c k v st)
          else apply_overrides c kwargs' st
      | Raise e => (Raise e, st)
      end
  end.

(** [get_scoring_function(scoring_function, num_processes, **kwargs)]. *)
Definition get_scoring_function (scoring_function : string) (num_processes : option Z)
                                (kwargs : list (string * pyval)) (st : pystate)
  : result dispatcher * pystate :=
  let scoring_functions := map class_name scoring_function_classes in
  match filter (fun f => String.eqb (class_name f) scoring_function)
               scoring_function_classes with
  | [] => (Raise (IndexError "list index out of range"), st)
  | scoring_function_class :: _ =>
      if negb (existsb (String.eqb scoring_function) scoring_functions) then
        (Raise (ValueError "Scoring function must be one of ['tanimoto', 'activity_model']"),
         st)
      else
        match apply_overrides scoring_function_class kwargs st with
        | (Raise e, st') => (Raise e, st')
        | (Ok _, st') =>
            match num_processes with
            | Some 0%Z =>
                let (r, st'') := Singleprocessing_init scoring_function_class st' in
                (d <- r ;; Ok (Single d), st'')
            | _ =>
                let (r, st'') := Multiprocessing_init num_processes scoring_function st' in
                (d <- r ;; Ok (Multi d), st'')
            end
        end
  end.

End Factory.

(** ** A small world for the examples *)

(** Descriptors parse unless they are empty or contain a question mark; the
    classifier gives every molecule the positive-class probability 1.0; the
    classifier file loads and the subprocesses start. *)
Definition sample_chem : Chem := {|
  Mol := string;
  Fingerprint := string;
  Classifier := unit;
  MolFromSmiles := fun s => if is_empty s || mem_char "?"%char s then None else Some s;
  GetMorganFingerprint := fun m _ => m;
  TanimotoSimilarity := fun a b => if String.eqb a b then f1 else (1 # 4)%Q;
  MolLogP := fun m => inject_Z (Z.of_nat (String.length m));
  GetNonzeroElements := fun fp => [(Z.of_nat (String.length fp), 1%Z)];
  predict_proba := fun _ _ => [f0; f1];
  pickle_load := fun _ => Ok tt;
  pexpect_spawn := fun _ => Ok true
|}.

(** A pass in which every worker is alive, the threads of the workers in
    [order] have ended, in that order, and each subprocess answers
    [line smile]. *)
Definition answering (order : list nat) (line : string -> string) : tick :=
  {| alive := fun _ => true;
     finished := order;
     reply := fun _ smile => {| received := line smile; closed := false |} |}.

(** The subprocess answers with the descriptor and the score 1.0, as the
    in-process [activity_model] of the small world scores every molecule. *)
Definition line_one (smile : string) : string := smile ++ " 1.0".

(** The subprocess answers with the descriptor and a score that depends on it. *)
Definition line_mixed (smile : string) : string :=
  smile ++ (if String.eqb smile "CCO" then " 0.25" else " 0.5").

Definition score_mixed (smile : string) : Q :=
  if String.eqb smile "CCO" then (1 # 4)%Q else (1 # 2)%Q.

Definition batch : list string := ["CCO"; "CCN"; "CCC"].

(** A [tanimoto] instance of the small world whose query is ethanol. *)
Definition sample_tanimoto : @tanimoto sample_chem :=
  @Build_tanimoto sample_chem (Some "CCO") (Some "CCO").

(** The [activity_model] instance of the small world. *)
Definition sample_model : @activity_model sample_chem :=
  @Build_activity_model sample_chem tt.

(** A pass in which no worker is alive. *)
Definition dead_pass : tick :=
  {| alive := fun _ => false;
     finished := [];
     reply := fun _ _ => {| received := ""; closed := true |} |}.

Definition pool (size : nat) : Multiprocessing :=
  {| n := Some (Z.of_nat size);
     workers := repeat {| proc := "./multiprocess.py activity_model" |} size |}.

(** ** Notions used by the properties of the parallel dispatcher *)

(** [reaches self trace st st']: from [st], the passes of [trace], each made
    with a non-empty queue and none raising, lead to [st']. *)
Inductive reaches (self : Multiprocessing) : list tick -> mstate -> mstate -> Prop :=
| reaches_here st : reaches self [] st st
| reaches_pass t trace st st' st'' :
    smiles_copy st <> [] ->
    iteration self t st = Ok st' ->
    reaches self trace st' st'' ->
    reaches self (t :: trace) st st''.

(** A pass in which some worker is alive and free: its thread, if it had
    one, has ended. *)
Definition responsive (self : Multiprocessing) (t : tick) : Prop :=
  exists i, In i (alive_workers self t) /\ In i (finished t).

(** In the pass [t] every worker's exchange on a descriptor [s] of the batch
    yields the score [f s]. *)
Definition scored (f : string -> Q) (smiles : list string) (t : tick) : Prop :=
  forall i s, In s smiles -> Worker_score s (reply t i s) = Ok (f s).

Definition number (v : pyval) : Prop := exists q, as_float v = Some q.

Definition thread_names (st : mstate) : list nat := map th_name (threads st).

(** Each running thread holds the descriptor of the batch found at the index
    it was given. *)
Definition aligned (smiles : list string) (st : mstate) : Prop :=
  forall th, In th (threads st) -> nth_error smiles (th_index th) = Some (th_smile th).

(** The queue is a prefix of the batch and the running threads are aligned. *)
Definition queue_aligned (smiles : list string) (st : mstate) : Prop :=
  smiles_copy st = firstn (length (smiles_copy st)) smiles /\ aligned smiles st.

(** The queue is a prefix of the batch, the running threads are aligned, and
    every slot from the queue's length on is either awaited by a running
    thread or already holds the score of its descriptor. *)
Definition settled_or_awaited (f : string -> Q) (smiles : list string) (st : mstate) : Prop :=
  length (scores st) = length smiles /\
  smiles_copy st = firstn (length (smiles_copy st)) smiles /\
  aligned smiles st /\
  forall i s,
    nth_error smiles i = Some s ->
    length (smiles_copy st) <= i ->
    (exists th, In th (threads st) /\ th_index th = i) \/
    nth_error (scores st) i = Some (PFloat (f s)).

(** Every slot of the result list still holds the initial [0] or holds a
    score that some worker computed, in one of the passes [ticks], for the
    descriptor at that very position of the batch. *)
Definition provenance (smiles : list string) (ticks : list tick) (l : list pyval) : Prop :=
  length l = length smiles /\
  forall i s,
    nth_error smiles i = Some s ->
    nth_error l i = Some (PInt 0) \/
    exists t w q,
      In t ticks /\
      Worker_score s (reply t w s) = Ok q /\
      nth_error l i = Some (PFloat q).

(** Whether every character of [s] satisfies [f]. *)
Fixpoint all_chars (f : ascii -> bool) (s : string) : bool :=
  match s with
  | EmptyString => true
  | String c s' => f c && all_chars f s'
  end.

(** A digit or the decimal point. *)
Definition plain (c : ascii) : bool := is_digit c || Ascii.eqb c "."%char.

(** * Properties *)

(** ** Oracle adapters *)

Section AdapterFacts.
Context {chem : Chem}.

Lemma tanimoto_loop_nth k self mols : forall i resluts,
  nth_error mols i = Some None ->
  tanimoto_loop k self mols = Ok resluts ->
  nth_error resluts i = Some f0.
Proof.
  induction mols as [|m mols IH]; intros i resluts Hi Hrun.
  - destruct i; discriminate.
  - simpl in Hrun.
    destruct (tanimoto_score k self m) as [sc|e] eqn:Hsc; [|discriminate].
    destruct (tanimoto_loop k self mols) as [r|e] eqn:Hr; [|discriminate].
    simpl in Hrun. injection Hrun as <-.
    destruct i as [|i]; simpl in *.
    + injection Hi as ->. simpl in Hsc. congruence.
    + eapply IH; eauto.
Qed.

Lemma tanimoto_loop_unset k self mols :
  query_fp self = None ->
  (exists m, In (Some m) mols) ->
  tanimoto_loop k self mols =
    Raise (AttributeError "'tanimoto' object has no attribute 'query_fp'").
Proof.
  intros Hfp. induction mols as [|mol mols IH]; intros [m Hin].
  - destruct Hin.
  - simpl. destruct mol as [m'|].
    + simpl. rewrite Hfp. reflexivity.
    + destruct Hin as [Heq|Hin]; [discriminate|].
      simpl. rewrite IH by eauto. reflexivity.
Qed.

(** C8: a descriptor that [MolFromSmiles] does not parse is scored exactly
    0.0 by each adapter: by [tanimoto] and [logP] at the descriptor's position
    of every batch (and alone), by [activity_model] as its return value. *)
Theorem unparsable_scores_zero (s : string) :
  MolFromSmiles s = None ->
  (forall k self smiles i resluts,
      nth_error smiles i = Some s ->
      tanimoto_call k self smiles = Ok resluts ->
      nth_error resluts i = Some f0) /\
  (forall k self, tanimoto_call k self [s] = Ok [f0]) /\
  (forall smiles i,
      nth_error smiles i = Some s ->
      nth_error (logP_call smiles) i = Some f0) /\
  (forall self, activity_model_call self s = Ok f0).
Proof.
  intros Hs. repeat split.
  - intros k self smiles i resluts Hi Hrun.
    apply (tanimoto_loop_nth k self (map MolFromSmiles smiles)); auto.
    rewrite nth_error_map, Hi. simpl. now rewrite Hs.
  - intros k self. unfold tanimoto_call. simpl. now rewrite Hs.
  - intros smiles i Hi. unfold logP_call.
    rewrite !nth_error_map, Hi. simpl. now rewrite Hs.
  - intros self. unfold activity_model_call. now rewrite Hs.
Qed.

(** C10: a name outside the catalog of eight structures makes
    [tanimoto.__init__] return an instance (printing one line) whose
    [query_fp] is unset, and every call of that instance on a batch with a
    parsable descriptor raises [AttributeError]. *)
Theorem tanimoto_unknown_structure (name : string) (st : pystate) :
  dict_get structures name = None ->
  length structures = 8 /\
  exists self,
    tanimoto_init name st = (Ok self, print "can't find this structure" st) /\
    query_fp self = None /\
    forall k smiles,
      (exists s m, In s smiles /\ MolFromSmiles s = Some m) ->
      tanimoto_call k self smiles =
        Raise (AttributeError "'tanimoto' object has no attribute 'query_fp'").
Proof.
  intros Hname. split; [reflexivity|].
  exists {| query_structure := None; query_fp := None |}.
  unfold tanimoto_init. rewrite Hname. repeat split.
  intros k smiles (s & m & Hin & Hm).
  apply tanimoto_loop_unset; [reflexivity|].
  exists m. rewrite <- Hm. now apply in_map.
Qed.

End AdapterFacts.

(** ** Factory *)

Section FactoryFacts.
Context {chem : Chem}.

Lemma unregistered_raises_IndexError name num_processes kwargs st :
  registered name = false ->
  get_scoring_function name num_processes kwargs st =
    (Raise (IndexError "list index out of range"), st).
Proof.
  unfold registered. cbn [existsb map scoring_function_classes class_name].
  intros H.
  apply orb_false_elim in H as [Ht H].
  apply orb_false_elim in H as [Ha _].
  unfold get_scoring_function.
  cbn [filter scoring_function_classes class_name].
  rewrite (String.eqb_sym "tanimoto"), (String.eqb_sym "activity_model").
  now rewrite Ht, Ha.
Qed.

(** C4: on the unregistered name ["QED"] the factory raises, before any
    adapter is built or subprocess spawned, but what it raises is the
    [IndexError] of the class lookup, not the [ValueError] of the check that
    follows it. *)
Theorem unknown_name_raises_IndexError :
  forall num_processes kwargs st,
    registered "QED" = false /\
    get_scoring_function "QED" num_processes kwargs st =
      (Raise (IndexError "list index out of range"), st).
Proof.
  intros. split; [reflexivity|].
  now apply unregistered_raises_IndexError.
Qed.

(** C9: the registered adapters are [tanimoto] and [activity_model] only, and
    for every [num_processes] and overrides the factory raises on ["logP"],
    leaving the state as it was. *)
Theorem logP_not_obtainable :
  forall num_processes kwargs st,
    map class_name scoring_function_classes = ["tanimoto"; "activity_model"] /\
    get_scoring_function "logP" num_processes kwargs st =
      (Raise (IndexError "list index out of range"), st).
Proof.
  intros. split; [reflexivity|].
  now apply unregistered_raises_IndexError.
Qed.

Lemma apply_overrides_skip c allowed k v :
  class_kwargs c = Ok allowed ->
  existsb (String.eqb k) allowed = false ->
  forall before after st,
    apply_overrides c (before ++ (k, v) :: after) st =
    apply_overrides c (before ++ after) st.
Proof.
  intros Hc Hk before. induction before as [|[k' v'] before IH]; intros after st.
  - simpl. now rewrite Hc, Hk.
  - simpl. rewrite Hc.
    destruct (existsb (String.eqb k') allowed); apply IH.
Qed.

(** C7, as the code has it: an override whose key is not among the selected
    class's [kwargs] is skipped, and the factory does exactly what it does
    without that override (same result, same state). *)
Theorem unrecognized_override_ignored
    (name : string) (c : adapter_class) (allowed : list string)
    (k : string) (v : pyval) :
  In c scoring_function_classes ->
  class_name c = name ->
  class_kwargs c = Ok allowed ->
  existsb (String.eqb k) allowed = false ->
  forall num_processes before after st,
    get_scoring_function name num_processes (before ++ (k, v) :: after) st =
    get_scoring_function name num_processes (before ++ after) st.
Proof.
  intros Hin Hname Hc Hk num_processes before after st.
  assert (Hsel : filter (fun f => String.eqb (class_name f) name)
                        scoring_function_classes = [c]).
  { subst name. destruct Hin as [<-|[<-|[]]]; reflexivity. }
  unfold get_scoring_function. rewrite Hsel.
  now rewrite (apply_overrides_skip c allowed k v Hc Hk).
Qed.

End FactoryFacts.

(** ** Worker *)

Section WorkerFacts.

Lemma all_chars_impl (f g : ascii -> bool) s :
  (forall c, f c = true -> g c = true) ->
  all_chars f s = true -> all_chars g s = true.
Proof.
  intros Hfg. induction s as [|c s IH]; simpl; [reflexivity|].
  intros H. apply andb_true_iff in H as [Hc Hs].
  now rewrite (Hfg c Hc), IH.
Qed.

Lemma span_all f s : forall a b, span f s = (a, b) -> all_chars f a = true.
Proof.
  induction s as [|c s IH]; simpl; intros a b H.
  - now injection H as <- <-.
  - destruct (f c) eqn:Hc.
    + destruct (span f s) as [a' b']. injection H as <- <-.
      simpl. rewrite Hc. now apply (IH a' b').
    + now injection H as <- <-.
Qed.

Lemma mem_char_app c a b : mem_char c (a ++ b) = mem_char c a || mem_char c b.
Proof.
  induction a as [|d a IH]; simpl; [reflexivity|].
  now rewrite IH, orb_assoc.
Qed.

Lemma all_chars_members s cs :
  (forall c, mem_char c s = true -> mem_char c cs = true) ->
  all_chars (fun c => mem_char c cs) s = true.
Proof.
  induction s as [|d s IH]; simpl; intros H; [reflexivity|].
  rewrite (H d), IH; auto.
  - intros c Hc. apply H. now rewrite Hc, orb_true_r.
  - now rewrite Ascii.eqb_refl.
Qed.

Lemma lstrip_app cs x y :
  all_chars (fun c => mem_char c cs) x = true ->
  lstrip cs (x ++ y) = lstrip cs y.
Proof.
  induction x as [|c x IH]; simpl; [reflexivity|].
  intros H. apply andb_true_iff in H as [Hc Hx].
  rewrite Hc. now apply IH.
Qed.

Lemma lstrip_all P cs y :
  all_chars P y = true -> all_chars P (lstrip cs y) = true.
Proof.
  induction y as [|c y IH]; simpl; [reflexivity|].
  intros H. destruct (mem_char c cs); simpl; [|exact H].
  apply andb_true_iff in H as [_ Hy]. now apply IH.
Qed.

Lemma re_search_some m s : forall pos p t,
  re_search m s pos = Some (p, t) -> exists s', m s' = Some t.
Proof.
  induction s as [|c s IH]; simpl; intros pos p t H.
  - destruct (m "") eqn:Hm; [|discriminate].
    injection H as _ <-. eauto.
  - destruct (m (String c s)) eqn:Hm.
    + injection H as _ <-. eauto.
    + eapply IH; eauto.
Qed.

Lemma match_score_shape smile s t :
  match_score smile s = Some t ->
  (exists zs, t = smile ++ " 1." ++ zs /\ all_chars is_zero zs = true) \/
  (exists ds, t = "0." ++ ds /\ all_chars is_digit ds = true).
Proof.
  unfold match_score.
  assert (Hsecond : forall t',
    match prefix_rest "0." s with
    | Some rest =>
        let (ds, _) := span is_digit rest in
        if is_empty ds then None else Some ("0." ++ ds)
    | None => None
    end = Some t' ->
    exists ds, t' = "0." ++ ds /\ all_chars is_digit ds = true).
  { intros t' H. destruct (prefix_rest "0." s) as [rest|]; [|discriminate].
    destruct (span is_digit rest) as [ds r] eqn:Hspan.
    destruct (is_empty ds); [discriminate|].
    injection H as <-. exists ds. split; [reflexivity|].
    eapply span_all; eauto. }
  destruct (prefix_rest (smile ++ " 1.") s) as [rest|]; [|now right; auto].
  destruct (span is_zero rest) as [zs r] eqn:Hspan.
  destruct (is_empty zs); [now right; auto|].
  intros H. injection H as <-. left. exists zs. split; [reflexivity|].
  eapply span_all; eauto.
Qed.

Lemma expect_after smile ex after :
  expect smile ex = Ok (0, after) ->
  exists s', match_score smile s' = Some after.
Proof.
  unfold expect.
  destruct (re_search (match_score smile) (received ex) 0) as [[p0 t0]|] eqn:H0;
    destruct (re_search match_none (received ex) 0) as [[p1 t1]|] eqn:H1.
  - destruct (p1 <? p0); intros H; [discriminate|].
    injection H as <-. eapply re_search_some; eauto.
  - intros H. injection H as <-. eapply re_search_some; eauto.
  - discriminate.
  - destruct (closed ex); discriminate.
Qed.

Lemma append_space s r : s ++ String " " r = (s ++ " ") ++ r.
Proof.
  induction s as [|c s IH]; simpl; [reflexivity|]. now rewrite IH.
Qed.

(** X9: whatever the subprocess sends, what [Worker.__call__] passes to [float]
    is made of digits and decimal points only. *)
Lemma float_argument_plain smile ex after :
  expect smile ex = Ok (0, after) ->
  all_chars plain (lstrip (smile ++ " ") after) = true.
Proof.
  intros H. apply expect_after in H as [s' H].
  apply match_score_shape in H as [(zs & -> & Hz)|(ds & -> & Hd)].
  - change (smile ++ " 1." ++ zs) with (smile ++ String " " ("1." ++ zs)).
    rewrite (append_space smile ("1." ++ zs)).
    rewrite (lstrip_app _ (smile ++ " ") ("1." ++ zs)).
    + apply lstrip_all. simpl.
      apply (all_chars_impl is_zero); [|exact Hz].
      intros c Hc. apply Ascii.eqb_eq in Hc. now subst c.
    + apply all_chars_members. auto.
  - apply lstrip_all. simpl.
    apply (all_chars_impl is_digit); [|exact Hd].
    intros c Hc. unfold plain. now rewrite Hc.
Qed.

(** A reply in which the score pattern matches nowhere (the sentinel, no
    line at all, a line with no score in it) gives the score 0.0, as long as
    the subprocess has not closed its output. *)
Lemma no_score_gives_zero smile ex :
  re_search (match_score smile) (received ex) 0 = None ->
  closed ex = false ->
  Worker_score smile ex = Ok f0.
Proof.
  intros Hnone Hopen. unfold Worker_score, expect. rewrite Hnone.
  destruct (re_search match_none (received ex) 0) as [[p1 t1]|]; simpl.
  - reflexivity.
  - now rewrite Hopen.
Qed.

(** C6: on the descriptor ["C1CC1"] and the well-formed answer
    ["C1CC1 1.0"], whose score is 1.0, [Worker.__call__] stores 0.0:
    [lstrip] removes the characters of the descriptor, the ['1'] of the score
    among them.  And on the descriptor ["CCO"] the line ["xyz 0.5"], which is
    not of the form descriptor-space-score, stores 0.5 and not 0.0. *)
Theorem worker_stores_wrong_score :
  float_of_string "1.0" = Ok f1 /\
  Worker_call "C1CC1" 0 [PInt 0] {| received := "C1CC1 1.0"; closed := false |}
    = Ok [PFloat f0] /\
  match_score "CCO" "xyz 0.5" = None /\
  Worker_call "CCO" 0 [PInt 0] {| received := "xyz 0.5"; closed := false |}
    = Ok [PFloat (1 # 2)%Q].
Proof.
  repeat split; reflexivity.
Qed.

End WorkerFacts.

(** ** Lists, arrays and threads *)

Section StoreFacts.

Lemma list_set_ok {A : Type} (l : list A) : forall i v,
  i < length l ->
  exists l', list_set l i v = Ok l' /\
             length l' = length l /\
             nth_error l' i = Some v /\
             forall j, j <> i -> nth_error l' j = nth_error l j.
Proof.
  induction l as [|x l IH]; intros i v Hi; simpl in Hi; [lia|].
  destruct i as [|i]; simpl.
  - exists (v :: l). repeat split. intros [|j] Hj; [lia|reflexivity].
  - destruct (IH i v) as (l' & -> & Hlen & Hnth & Hother); [lia|].
    exists (x :: l'). simpl. repeat split; auto.
    intros [|j] Hj; simpl; [reflexivity|]. apply Hother. lia.
Qed.

Lemma list_set_length {A : Type} (l : list A) : forall i v l',
  list_set l i v = Ok l' -> length l' = length l.
Proof.
  induction l as [|x l IH]; intros i v l' H; simpl in H; [discriminate|].
  destruct i as [|i].
  - now injection H as <-.
  - destruct (list_set l i v) as [l''|] eqn:Hset; [|discriminate].
    simpl in H. injection H as <-. simpl. f_equal. eauto.
Qed.

Lemma list_set_number (l : list pyval) : forall i q l',
  Forall number l -> list_set l i (PFloat q) = Ok l' -> Forall number l'.
Proof.
  induction l as [|x l IH]; intros i q l' Hall H; simpl in H; [discriminate|].
  inversion Hall as [|? ? Hx Hl]; subst.
  destruct i as [|i].
  - injection H as <-. constructor; [now exists q|assumption].
  - destruct (list_set l i (PFloat q)) as [l''|] eqn:Hset; [|discriminate].
    simpl in H. injection H as <-. constructor; eauto.
Qed.

Lemma all_floats_number l :
  Forall number l -> exists qs, all_floats l = Some qs.
Proof.
  induction 1 as [|v l [q Hq] _ [qs IH]]; simpl; [eauto|].
  rewrite Hq, IH. eauto.
Qed.

Lemma all_floats_length l : forall qs,
  all_floats l = Some qs -> length qs = length l.
Proof.
  induction l as [|v l IH]; simpl; intros qs H.
  - now injection H as <-.
  - destruct (as_float v); [|discriminate].
    destruct (all_floats l) as [qs'|]; [|discriminate].
    injection H as <-. simpl. f_equal. now apply IH.
Qed.

Lemma all_floats_map qs : all_floats (map PFloat qs) = Some qs.
Proof.
  induction qs as [|q qs IH]; simpl; [reflexivity|]. now rewrite IH.
Qed.

Lemma all_rows_length w l : forall rows,
  all_rows w l = Some rows -> length rows = length l.
Proof.
  induction l as [|v l IH]; simpl; intros rows H.
  - now injection H as <-.
  - destruct v as [| | |r]; try discriminate.
    destruct (length r =? w); [|discriminate].
    destruct (all_rows w l) as [rs|]; [|discriminate].
    injection H as <-. simpl. f_equal. now apply IH.
Qed.

Lemma np_array_len l a : np_array l = Ok a -> ndarray_len a = length l.
Proof.
  unfold np_array.
  destruct (all_floats l) as [qs|] eqn:Hf.
  - intros H. injection H as <-. now apply all_floats_length.
  - destruct l as [|[| | |r] l']; try discriminate.
    destruct (all_rows (length r) (PList r :: l')) as [rows|] eqn:Hr; [|discriminate].
    intros H. injection H as <-. eapply all_rows_length; eauto.
Qed.

Lemma nth_error_Some_lt {A : Type} (l : list A) i x :
  nth_error l i = Some x -> i < length l.
Proof.
  intros H. apply nth_error_Some. congruence.
Qed.

Lemma pop_none {A : Type} (l : list A) : pop l = None -> l = [].
Proof.
  destruct l as [|x l]; simpl; [reflexivity|].
  destruct (pop l) as [[y r]|]; discriminate.
Qed.

Lemma pop_some {A : Type} (l : list A) : forall x r,
  pop l = Some (x, r) -> l = (r ++ [x])%list.
Proof.
  induction l as [|y l IH]; simpl; intros x r H; [discriminate|].
  destruct (pop l) as [[z r']|] eqn:Hp.
  - injection H as <- <-. simpl. f_equal. now apply IH.
  - injection H as <- <-. now rewrite (pop_none l Hp).
Qed.

Lemma take_thread_some i ths : forall th rest,
  take_thread i ths = Some (th, rest) ->
  th_name th = i /\ exists a b, ths = (a ++ th :: b)%list /\ rest = (a ++ b)%list.
Proof.
  induction ths as [|x ths IH]; simpl; intros th rest H; [discriminate|].
  destruct (th_name x =? i) eqn:Hx.
  - injection H as <- <-. apply Nat.eqb_eq in Hx. split; [assumption|].
    now exists [], ths.
  - destruct (take_thread i ths) as [[y r]|]; [|discriminate].
    injection H as <- <-.
    destruct (IH y r eq_refl) as (Hn & a & b & -> & ->).
    split; [assumption|]. now exists (x :: a), b.
Qed.

Lemma take_thread_none i ths :
  take_thread i ths = None -> ~ In i (map th_name ths).
Proof.
  induction ths as [|x ths IH]; simpl; intros H; [tauto|].
  destruct (th_name x =? i) eqn:Hx; [discriminate|].
  apply Nat.eqb_neq in Hx.
  destruct (take_thread i ths) as [[y r]|]; [discriminate|].
  intros [Heq|Hin]; [contradiction|]. now apply IH.
Qed.

Lemma run_thread_length t th l : length (run_thread t th l) = length l.
Proof.
  unfold run_thread, Worker_call.
  destruct (Worker_score _ _) as [q|]; simpl; [|reflexivity].
  destruct (list_set l (th_index th) (PFloat q)) as [l'|] eqn:H; [|reflexivity].
  eapply list_set_length; eauto.
Qed.

Lemma run_thread_number t th l : Forall number l -> Forall number (run_thread t th l).
Proof.
  intros Hl. unfold run_thread, Worker_call.
  destruct (Worker_score _ _) as [q|]; simpl; [|assumption].
  destruct (list_set l (th_index th) (PFloat q)) as [l'|] eqn:H; [|assumption].
  eapply list_set_number; eauto.
Qed.

End StoreFacts.

(** ** The parallel dispatcher *)

Section Preserved.
(** Whatever holds of the result list and is kept by one worker thread is
    kept by the whole call. *)
Variable self : Multiprocessing.
Variable P : list pyval -> Prop.
Hypothesis run_thread_P : forall t th l, P l -> P (run_thread t th l).

Lemma finish_P t st i : P (scores st) -> P (scores (finish t st i)).
Proof.
  intros H. unfold finish.
  destruct (take_thread i (threads st)) as [[th rest]|]; simpl; auto.
Qed.

Lemma settle_P t st : P (scores st) -> P (scores (settle t st)).
Proof.
  unfold settle. generalize (finished t) as fin.
  intros fin. revert st.
  induction fin as [|i fin IH]; intros st H; simpl; [assumption|].
  apply IH. now apply finish_P.
Qed.

Lemma dispatch_scores free : forall st, scores (dispatch free st) = scores st.
Proof.
  induction free as [|i free IH]; intros st; simpl; [reflexivity|].
  destruct (pop (smiles_copy st)) as [[smile rest]|]; now rewrite IH.
Qed.

Lemma iteration_P t st st' :
  iteration self t st = Ok st' -> P (scores st) -> P (scores st').
Proof.
  unfold iteration. destruct (alive_workers self t); [discriminate|].
  intros H Hst. injection H as <-.
  rewrite dispatch_scores. now apply settle_P.
Qed.

Lemma loop_P trace : forall st st',
  loop self trace st = Some (Ok st') -> P (scores st) -> P (scores st').
Proof.
  induction trace as [|t trace IH]; intros st st' H Hst; simpl in H.
  - destruct (smiles_copy st); [|discriminate]. now injection H as <-.
  - destruct (smiles_copy st); [now injection H as <-|].
    destruct (iteration self t st) as [st1|] eqn:Hit; [|discriminate].
    eapply IH; eauto. eapply iteration_P; eauto.
Qed.

Lemma join_P t st : P (scores st) -> P (scores (join t st)).
Proof.
  intros H. unfold join. simpl.
  apply settle_P with (t := t) in H. revert H.
  generalize (scores (settle t st)) as l.
  induction (threads (settle t st)) as [|th ths IH]; intros l H; simpl; auto.
Qed.

End Preserved.

Section Progress.
Variable self : Multiprocessing.

Lemma existsb_eqb_false i l : existsb (Nat.eqb i) l = false <-> ~ In i l.
Proof.
  induction l as [|x l IH]; simpl; [tauto|].
  rewrite orb_false_iff, IH, Nat.eqb_neq. intuition congruence.
Qed.

Lemma finish_names t st i :
  NoDup (thread_names st) ->
  NoDup (thread_names (finish t st i)) /\
  ~ In i (thread_names (finish t st i)) /\
  forall j, ~ In j (thread_names st) -> ~ In j (thread_names (finish t st i)).
Proof.
  unfold finish, thread_names. intros Hnd.
  destruct (take_thread i (threads st)) as [[th rest]|] eqn:Htake; simpl.
  - apply take_thread_some in Htake as (Hname & a & b & Hths & ->).
    rewrite Hths, map_app in Hnd. simpl in Hnd. rewrite Hname in Hnd.
    rewrite map_app. repeat split.
    + now apply NoDup_remove_1 in Hnd.
    + now apply NoDup_remove_2 in Hnd.
    + intros j Hj Hin. apply Hj. rewrite Hths, map_app. simpl.
      apply in_app_or in Hin. apply in_or_app. simpl. tauto.
  - repeat split; auto. now apply take_thread_none.
Qed.

Lemma settle_names t st :
  NoDup (thread_names st) ->
  NoDup (thread_names (settle t st)) /\
  forall i, In i (finished t) -> ~ In i (thread_names (settle t st)).
Proof.
  unfold settle.
  assert (Hgen : forall fin st0,
    NoDup (thread_names st0) ->
    NoDup (thread_names (fold_left (finish t) fin st0)) /\
    (forall j, ~ In j (thread_names st0) ->
               ~ In j (thread_names (fold_left (finish t) fin st0))) /\
    forall i, In i fin -> ~ In i (thread_names (fold_left (finish t) fin st0))).
  { induction fin as [|k fin IH]; intros st0 Hnd; simpl.
    - repeat split; auto.
    - destruct (finish_names t st0 k Hnd) as (Hnd' & Hk & Hkeep).
      destruct (IH _ Hnd') as (Hnd'' & Hkeep' & Hfin).
      repeat split; auto.
      intros i [<-|Hi]; auto. }
  intros Hnd. destruct (Hgen (finished t) st Hnd) as (H1 & _ & H3). auto.
Qed.

Lemma dispatch_names free : forall st,
  NoDup free ->
  (forall i, In i free -> ~ In i (thread_names st)) ->
  NoDup (thread_names st) ->
  NoDup (thread_names (dispatch free st)).
Proof.
  induction free as [|i free IH]; intros st Hfree Hdisj Hnd; simpl; [assumption|].
  inversion Hfree as [|? ? Hi Hfree']; subst.
  destruct (pop (smiles_copy st)) as [[smile rest]|].
  - apply IH; auto; unfold thread_names in *; simpl; rewrite map_app; simpl.
    + intros j Hj Hin. apply in_app_or in Hin as [Hin|[<-|[]]].
      * apply (Hdisj j); simpl; auto.
      * contradiction.
    + apply NoDup_app.
      * assumption.
      * constructor; [intros []|constructor].
      * intros j Hj [<-|[]]. apply (Hdisj i); simpl; auto.
  - apply IH; auto. intros j Hj. apply Hdisj. simpl; auto.
Qed.

Lemma iteration_ok t st st' :
  iteration self t st = Ok st' ->
  alive_workers self t <> [] /\
  st' = dispatch (not_in (map th_name (threads (settle t st))) (alive_workers self t))
                 (settle t st).
Proof.
  unfold iteration. destruct (alive_workers self t) as [|a al]; [discriminate|].
  intros H. injection H as <-. split; [discriminate|reflexivity].
Qed.

Lemma iteration_names t st st' :
  iteration self t st = Ok st' ->
  NoDup (thread_names st) -> NoDup (thread_names st').
Proof.
  intros H Hnd. apply iteration_ok in H as [_ ->].
  apply dispatch_names.
  - apply NoDup_filter. unfold alive_workers.
    apply NoDup_filter, seq_NoDup.
  - intros i Hi. apply filter_In in Hi as [_ Hi].
    apply negb_true_iff in Hi. now apply existsb_eqb_false in Hi.
  - now apply settle_names.
Qed.

Lemma dispatch_queue free : forall st,
  length (smiles_copy (dispatch free st)) = length (smiles_copy st) - length free.
Proof.
  induction free as [|i free IH]; intros st; simpl; [lia|].
  destruct (pop (smiles_copy st)) as [[smile rest]|] eqn:Hpop.
  - rewrite IH. simpl. apply pop_some in Hpop. rewrite Hpop, length_app. simpl. lia.
  - rewrite IH. apply pop_none in Hpop. rewrite Hpop. simpl. lia.
Qed.

Lemma settle_queue t st : smiles_copy (settle t st) = smiles_copy st.
Proof.
  unfold settle. generalize (finished t) as fin. intros fin. revert st.
  induction fin as [|i fin IH]; intros st; simpl; [reflexivity|].
  rewrite IH. unfold finish.
  now destruct (take_thread i (threads st)) as [[th rest]|].
Qed.

(** A responsive pass takes at least one descriptor off a non-empty queue. *)
Lemma iteration_progress t st :
  responsive self t ->
  NoDup (thread_names st) ->
  smiles_copy st <> [] ->
  exists st', iteration self t st = Ok st' /\
              length (smiles_copy st') < length (smiles_copy st).
Proof.
  intros (i & Halive & Hfin) Hnd Hq. unfold iteration.
  destruct (alive_workers self t) as [|a al] eqn:Hal; [destruct Halive|].
  eexists. split; [reflexivity|].
  rewrite dispatch_queue, settle_queue.
  assert (Hfree : In i (not_in (map th_name (threads (settle t st))) (a :: al))).
  { apply filter_In. split; [assumption|].
    apply negb_true_iff, existsb_eqb_false.
    now apply (settle_names t st Hnd). }
  destruct (not_in _ (a :: al)) as [|x free]; [destruct Hfree|].
  destruct (smiles_copy st); [contradiction|]. simpl. lia.
Qed.

Lemma loop_returns trace : forall st,
  Forall (responsive self) trace ->
  NoDup (thread_names st) ->
  length (smiles_copy st) <= length trace ->
  exists st', loop self trace st = Some (Ok st').
Proof.
  induction trace as [|t trace IH]; intros st Hresp Hnd Hlen; simpl.
  - destruct (smiles_copy st); [eauto|simpl in Hlen; lia].
  - destruct (smiles_copy st) as [|s q] eqn:Hq; [eauto|].
    inversion Hresp as [|? ? Ht Hrest]; subst.
    destruct (iteration_progress t st Ht Hnd) as (st1 & Hit & Hlt).
    { rewrite Hq. discriminate. }
    rewrite Hit. apply IH; auto.
    + eapply iteration_names; eauto.
    + rewrite Hq in Hlt. simpl in *. lia.
Qed.

(** With one responsive pass per descriptor, the call returns an array. *)
Lemma Multiprocessing_call_returns smiles trace last :
  Forall (responsive self) trace ->
  length smiles <= length trace ->
  exists a, Multiprocessing_call self smiles trace last = Some (Ok a).
Proof.
  intros Hresp Hlen. unfold Multiprocessing_call.
  destruct (loop_returns trace (start smiles)) as [st Hloop]; auto.
  { constructor. }
  rewrite Hloop.
  assert (Hnum : Forall number (scores (join last st))).
  { apply join_P; [apply run_thread_number|].
    eapply loop_P; eauto; [apply run_thread_number|].
    simpl. apply Forall_forall. intros v Hv.
    apply repeat_spec in Hv. subst v. now exists (inject_Z 0). }
  apply all_floats_number in Hnum as [qs Hqs].
  unfold np_array. rewrite Hqs. eauto.
Qed.

(** An array returned by the call has the length of the batch. *)
Lemma Multiprocessing_call_len smiles trace last a :
  Multiprocessing_call self smiles trace last = Some (Ok a) ->
  ndarray_len a = length smiles.
Proof.
  unfold Multiprocessing_call.
  destruct (loop self trace (start smiles)) as [[st|]|] eqn:Hloop; try discriminate.
  intros H. injection H as H. apply np_array_len in H. rewrite H.
  apply (join_P (fun l => length l = length smiles)).
  { intros. now rewrite run_thread_length. }
  eapply (loop_P self (fun l => length l = length smiles)); eauto.
  { intros. now rewrite run_thread_length. }
  simpl. apply repeat_length.
Qed.

End Progress.

Section Alignment.
Variable self : Multiprocessing.
Variable f : string -> Q.
Variable smiles : list string.

(** [pop] on a prefix of the batch leaves a prefix and hands out the
    descriptor whose position is the length of what is left. *)
Lemma pop_prefix (q : list string) smile rest :
  pop q = Some (smile, rest) ->
  q = firstn (length q) smiles ->
  rest = firstn (length rest) smiles /\
  nth_error smiles (length rest) = Some smile.
Proof.
  intros Hpop Hpre. apply pop_some in Hpop.
  assert (Hq : length q = S (length rest)).
  { rewrite Hpop, length_app. simpl. lia. }
  split.
  - assert (H : firstn (length rest) q = rest).
    { rewrite Hpop, firstn_app, Nat.sub_diag, firstn_all. apply app_nil_r. }
    rewrite Hpre, firstn_firstn, Hq in H.
    replace (Nat.min (length rest) (S (length rest))) with (length rest) in H by lia.
    now symmetry.
  - assert (H : nth_error q (length rest) = Some smile).
    { rewrite Hpop, nth_error_app2, Nat.sub_diag by lia. reflexivity. }
    rewrite Hpre, nth_error_firstn, Hq in H.
    destruct (length rest <? S (length rest)); [assumption|discriminate].
Qed.

Lemma finish_aligned t st i :
  queue_aligned smiles st -> queue_aligned smiles (finish t st i).
Proof.
  intros [Hpre Hal]. unfold finish.
  destruct (take_thread i (threads st)) as [[th rest]|] eqn:Htake; [|now split].
  apply take_thread_some in Htake as (_ & a & b & Hths & ->).
  split; simpl; [assumption|].
  intros x Hx. apply Hal. rewrite Hths.
  apply in_app_or in Hx. apply in_or_app. simpl. tauto.
Qed.

Lemma settle_aligned t st :
  queue_aligned smiles st -> queue_aligned smiles (settle t st).
Proof.
  unfold settle. generalize (finished t) as fin. intros fin. revert st.
  induction fin as [|i fin IH]; intros st Hst; simpl; [assumption|].
  apply IH. now apply finish_aligned.
Qed.

Lemma dispatch_aligned free : forall st,
  queue_aligned smiles st -> queue_aligned smiles (dispatch free st).
Proof.
  induction free as [|i free IH]; intros st Hst; simpl; [assumption|].
  destruct (pop (smiles_copy st)) as [[smile rest]|] eqn:Hpop; [|now apply IH].
  apply IH. destruct Hst as [Hpre Hal].
  destruct (pop_prefix _ _ _ Hpop Hpre) as (Hrest & Hnew).
  split; simpl; [assumption|].
  intros th Hth. apply in_app_or in Hth as [Hth|[<-|[]]]; auto.
Qed.

(** In every state the passes reach, each running thread holds the
    descriptor found in the batch at the index the thread was given. *)
Lemma reaches_aligned trace st st' :
  reaches self trace st st' ->
  queue_aligned smiles st -> queue_aligned smiles st'.
Proof.
  induction 1 as [|t trace st st1 st2 Hq Hit Hreach IH]; intros Hst.
  - assumption.
  - apply IH. apply iteration_ok in Hit as [_ ->].
    now apply dispatch_aligned, settle_aligned.
Qed.

Lemma start_aligned : queue_aligned smiles (start smiles).
Proof.
  split; simpl; [now rewrite firstn_all|intros th []].
Qed.

Lemma start_settled : settled_or_awaited f smiles (start smiles).
Proof.
  unfold settled_or_awaited, start, aligned. simpl.
  repeat split.
  - apply repeat_length.
  - now rewrite firstn_all.
  - intros th [].
  - intros i s Hi Hle. apply nth_error_Some_lt in Hi. lia.
Qed.

(** A thread that ends leaves the score of its descriptor in its slot and
    touches no other slot. *)
Lemma run_thread_settled t l q a th b :
  scored f smiles t ->
  settled_or_awaited f smiles
    {| scores := l; smiles_copy := q; threads := a ++ th :: b |} ->
  settled_or_awaited f smiles
    {| scores := run_thread t th l; smiles_copy := q; threads := a ++ b |}.
Proof.
  intros Hscored (Hlen & Hpre & Hal & Hslots). simpl in *.
  assert (Hth : nth_error smiles (th_index th) = Some (th_smile th)).
  { apply Hal. simpl. apply in_or_app. simpl. auto. }
  assert (Hidx : th_index th < length l).
  { rewrite Hlen. now apply nth_error_Some_lt in Hth. }
  unfold run_thread, Worker_call.
  rewrite (Hscored _ _ (nth_error_In _ _ Hth)). simpl.
  destruct (list_set_ok l (th_index th) (PFloat (f (th_smile th))) Hidx)
    as (l' & -> & Hl' & Hnth & Hother).
  repeat split; simpl.
  - congruence.
  - assumption.
  - intros x Hx. apply Hal. simpl.
    apply in_app_or in Hx. apply in_or_app. simpl. tauto.
  - intros i s Hi Hq.
    destruct (Nat.eq_dec i (th_index th)) as [->|Hne].
    + right. rewrite Hnth. congruence.
    + destruct (Hslots i s Hi Hq) as [(x & Hx & Hxi)|Hdone].
      * left. exists x. split; [|assumption].
        apply in_app_or in Hx as [Hx|[<-|Hx]];
          [apply in_or_app; auto|congruence|apply in_or_app; auto].
      * right. now rewrite Hother.
Qed.

Lemma finish_settled t st i :
  scored f smiles t ->
  settled_or_awaited f smiles st ->
  settled_or_awaited f smiles (finish t st i).
Proof.
  intros Hscored Hst. unfold finish.
  destruct (take_thread i (threads st)) as [[th rest]|] eqn:Htake; [|assumption].
  apply take_thread_some in Htake as (_ & a & b & Hths & ->).
  apply run_thread_settled; [assumption|].
  destruct st as [l q ths]. simpl in *. now subst ths.
Qed.

Lemma settle_settled t st :
  scored f smiles t ->
  settled_or_awaited f smiles st ->
  settled_or_awaited f smiles (settle t st).
Proof.
  intros Hscored. unfold settle. generalize (finished t) as fin.
  intros fin. revert st.
  induction fin as [|i fin IH]; intros st Hst; simpl; [assumption|].
  apply IH. now apply finish_settled.
Qed.

(** The index given to a thread is the position of its descriptor. *)
Lemma dispatch_settled free : forall st,
  settled_or_awaited f smiles st ->
  settled_or_awaited f smiles (dispatch free st).
Proof.
  induction free as [|i free IH]; intros st Hst; simpl; [assumption|].
  destruct (pop (smiles_copy st)) as [[smile rest]|] eqn:Hpop; [|now apply IH].
  apply IH.
  destruct Hst as (Hlen & Hpre & Hal & Hslots).
  destruct (pop_prefix _ _ _ Hpop Hpre) as (Hrest & Hnew).
  apply pop_some in Hpop.
  repeat split; simpl.
  - assumption.
  - assumption.
  - intros th Hth. apply in_app_or in Hth as [Hth|[<-|[]]]; auto.
  - intros j s Hj Hle.
    destruct (Nat.eq_dec j (length rest)) as [->|Hne].
    + left. eexists. split; [apply in_or_app; right; left; reflexivity|reflexivity].
    + destruct (Hslots j s Hj) as [(x & Hx & Hxj)|Hdone].
      * rewrite Hpop, length_app. simpl. lia.
      * left. exists x. split; [apply in_or_app; auto|assumption].
      * now right.
Qed.

Lemma iteration_settled t st st' :
  scored f smiles t ->
  iteration self t st = Ok st' ->
  settled_or_awaited f smiles st ->
  settled_or_awaited f smiles st'.
Proof.
  intros Hscored H Hst. apply iteration_ok in H as [_ ->].
  now apply dispatch_settled, settle_settled.
Qed.

Lemma reaches_settled trace st st' :
  reaches self trace st st' ->
  Forall (scored f smiles) trace ->
  settled_or_awaited f smiles st ->
  settled_or_awaited f smiles st'.
Proof.
  induction 1 as [|t trace st st1 st2 Hq Hit Hreach IH]; intros Hall Hst.
  - assumption.
  - inversion Hall; subst. apply IH; [assumption|].
    eapply iteration_settled; eauto.
Qed.

(** What [loop] returns is what the passes reach, with an empty queue. *)
Lemma loop_reaches trace : forall st st',
  loop self trace st = Some (Ok st') ->
  smiles_copy st' = [] /\
  exists used, reaches self used st st' /\ incl used trace.
Proof.
  induction trace as [|t trace IH]; intros st st' H; simpl in H.
  - destruct (smiles_copy st) eqn:Hq; [|discriminate]. injection H as <-.
    split; [assumption|]. exists []. split; [constructor|apply incl_nil_l].
  - destruct (smiles_copy st) eqn:Hq.
    + injection H as <-.
      split; [assumption|]. exists []. split; [constructor|apply incl_nil_l].
    + destruct (iteration self t st) as [st1|] eqn:Hit; [|discriminate].
      destruct (IH _ _ H) as (Hempty & used & Hreach & Hincl).
      split; [assumption|]. exists (t :: used). split.
      * econstructor; eauto. rewrite Hq. discriminate.
      * intros x [<-|Hx]; simpl; auto.
Qed.

(** The passes of a prefix of the trace are those that [loop] makes first. *)
Lemma loop_after trace st st' :
  reaches self trace st st' ->
  forall rest, loop self (trace ++ rest) st = loop self rest st'.
Proof.
  induction 1 as [|t trace st st1 st2 Hq Hit Hreach IH]; intros rest.
  - reflexivity.
  - simpl. destruct (smiles_copy st); [contradiction|].
    rewrite Hit. apply IH.
Qed.

(** After the joins every slot holds the score of its descriptor. *)
Lemma join_settled last st :
  scored f smiles last ->
  smiles_copy st = [] ->
  settled_or_awaited f smiles st ->
  scores (join last st) = map PFloat (map f smiles).
Proof.
  intros Hscored Hempty Hst.
  apply (settle_settled last) in Hst; [|assumption].
  assert (Hq : smiles_copy (settle last st) = []).
  { now rewrite settle_queue. }
  unfold join. simpl.
  destruct (settle last st) as [l q ths]. simpl in *. subst q.
  assert (Hgen : forall ths l,
    settled_or_awaited f smiles {| scores := l; smiles_copy := []; threads := ths |} ->
    settled_or_awaited f smiles
      {| scores := fold_left (fun l th => run_thread last th l) ths l;
         smiles_copy := []; threads := [] |}).
  { clear l ths Hst. induction ths as [|th ths IH]; intros l Hl; simpl; [assumption|].
    apply IH. now apply (run_thread_settled last l [] [] th ths). }
  destruct (Hgen ths l Hst) as (Hlen & _ & _ & Hslots). simpl in *.
  apply nth_error_ext. intros i.
  rewrite map_map, nth_error_map.
  destruct (nth_error smiles i) as [s|] eqn:Hi; simpl.
  - destruct (Hslots i s Hi) as [(x & [] & _)|Hdone]; [lia|assumption].
  - apply nth_error_None. rewrite Hlen. now apply nth_error_None.
Qed.

End Alignment.

(** C2: the index handed to a worker thread when its descriptor is taken
    off the queue is the descriptor's position in the batch; hence, whatever
    the passes (which workers are alive, which threads end, in which order),
    when every exchange on a descriptor [s] yields the score [f s] the array
    returned is [f] mapped over the batch, and it is returned as soon as the
    passes given are responsive and as many as the descriptors. *)
Theorem result_order_matches_input (self : Multiprocessing) (smiles : list string) :
  (forall used st th,
      reaches self used (start smiles) st ->
      In th (threads st) ->
      nth_error smiles (th_index th) = Some (th_smile th)) /\
  forall (f : string -> Q) (trace : list tick) (last : tick),
    Forall (scored f smiles) trace ->
    scored f smiles last ->
    (forall a,
        Multiprocessing_call self smiles trace last = Some (Ok a) ->
        a = Arr1 (map f smiles)) /\
    (Forall (responsive self) trace ->
     length smiles <= length trace ->
     Multiprocessing_call self smiles trace last = Some (Ok (Arr1 (map f smiles)))).
Proof.
  split.
  { intros used st th Hreach Hth.
    apply (reaches_aligned self smiles used _ _ Hreach (start_aligned smiles)).
    assumption. }
  intros f trace last Htrace Hlast.
  assert (Hret : forall a,
    Multiprocessing_call self smiles trace last = Some (Ok a) ->
    a = Arr1 (map f smiles)).
  { intros a. unfold Multiprocessing_call.
    destruct (loop self trace (start smiles)) as [[st|]|] eqn:Hloop; try discriminate.
    apply loop_reaches in Hloop as (Hempty & used & Hreach & Hincl).
    assert (Hused : Forall (scored f smiles) used).
    { rewrite Forall_forall in *. auto. }
    pose proof (reaches_settled self f smiles used _ _ Hreach Hused
                  (start_settled f smiles)) as Hst.
    rewrite (join_settled f smiles last st Hlast Hempty Hst).
    unfold np_array. rewrite all_floats_map. congruence. }
  split; [exact Hret|].
  intros Hresp Hlen.
  destruct (Multiprocessing_call_returns self smiles trace last Hresp Hlen) as [a Ha].
  now rewrite Ha, (Hret a Ha).
Qed.

(** C3: when a pass finds the queue non-empty and no worker alive, the call
    raises the [RuntimeError] "All subprocesses are dead, exiting." and
    returns no array, whatever the passes before and after. *)
Theorem all_dead_raises
    (self : Multiprocessing) (smiles : list string)
    (before : list tick) (st : mstate) (t : tick) (after : list tick) (last : tick) :
  reaches self before (start smiles) st ->
  smiles_copy st <> [] ->
  alive_workers self t = [] ->
  Multiprocessing_call self smiles (before ++ t :: after) last =
    Some (Raise (RuntimeError "All subprocesses are dead, exiting.")).
Proof.
  intros Hreach Hq Hdead. unfold Multiprocessing_call.
  rewrite (loop_after self before _ _ Hreach). simpl.
  destruct (smiles_copy st); [contradiction|].
  unfold iteration. now rewrite Hdead.
Qed.

(** ** Both dispatchers *)

Section BothDispatchers.
Context {chem : Chem}.

Lemma comprehension_length {A B : Type} (g : A -> result B) l : forall ys,
  comprehension g l = Ok ys -> length ys = length l.
Proof.
  induction l as [|x l IH]; simpl; intros ys H.
  - now injection H as <-.
  - destruct (g x) as [y|]; [|discriminate]. simpl in H.
    destruct (comprehension g l) as [ys'|]; [|discriminate].
    simpl in H. injection H as <-. simpl. f_equal. now apply IH.
Qed.

Lemma Singleprocessing_call_len st self smiles a :
  Singleprocessing_call st self smiles = Ok a -> ndarray_len a = length smiles.
Proof.
  unfold Singleprocessing_call.
  destruct (comprehension _ smiles) as [ys|] eqn:Hc; [|discriminate].
  simpl. intros H. apply np_array_len in H. rewrite H.
  eapply comprehension_length; eauto.
Qed.

Lemma activity_model_scores st self smiles :
  (forall fp, nth_error (predict_proba (clf self) fp) 1 <> None) ->
  exists qs,
    comprehension (adapter_call st (activity_model_obj self)) smiles
      = Ok (map PFloat qs).
Proof.
  intros Hbin. induction smiles as [|s smiles [qs IH]]; simpl.
  - now exists [].
  - unfold activity_model_call.
    destruct (MolFromSmiles s) as [mol|].
    + destruct (nth_error _ 1) as [score|] eqn:Hs; [|now apply Hbin in Hs].
      simpl. rewrite IH. now exists (score :: qs).
    + simpl. rewrite IH. now exists (f0 :: qs).
Qed.

(** C1: an array returned by either dispatcher has the length of the batch.
    The parallel dispatcher returns one whenever the passes given are
    responsive and as many as the descriptors; the single-process dispatcher
    returns one for every batch when its adapter is an [activity_model]
    whose classifier has two classes. *)
Theorem dispatchers_keep_length :
  (forall self smiles trace last a,
      Multiprocessing_call self smiles trace last = Some (Ok a) ->
      ndarray_len a = length smiles) /\
  (forall self smiles trace last,
      Forall (responsive self) trace ->
      length smiles <= length trace ->
      exists a, Multiprocessing_call self smiles trace last = Some (Ok a) /\
                ndarray_len a = length smiles) /\
  (forall st self smiles a,
      Singleprocessing_call st self smiles = Ok a ->
      ndarray_len a = length smiles) /\
  (forall st self smiles,
      (forall fp, nth_error (predict_proba (clf self) fp) 1 <> None) ->
      exists a,
        Singleprocessing_call st {| scoring_function := activity_model_obj self |} smiles
          = Ok a /\
        ndarray_len a = length smiles).
Proof.
  split; [|split; [|split]].
  - intros. eapply Multiprocessing_call_len; eauto.
  - intros self smiles trace last Hresp Hlen.
    destruct (Multiprocessing_call_returns self smiles trace last Hresp Hlen) as [a Ha].
    exists a. split; [assumption|]. eapply Multiprocessing_call_len; eauto.
  - intros. eapply Singleprocessing_call_len; eauto.
  - intros st self smiles Hbin.
    destruct (activity_model_scores st self smiles Hbin) as [qs Hqs].
    exists (Arr1 qs).
    assert (H : Singleprocessing_call st
                  {| scoring_function := activity_model_obj self |} smiles
                = Ok (Arr1 qs)).
    { unfold Singleprocessing_call. simpl scoring_function. rewrite Hqs. simpl.
      unfold np_array. now rewrite all_floats_map. }
    split; [assumption|]. now apply Singleprocessing_call_len in H.
Qed.

End BothDispatchers.

(** ** The properties at work on the small world *)

(** C5: with the same [activity_model], which scores ["C1CC1"] as 1.0, and a
    subprocess that answers ["C1CC1 1.0"] as the protocol says, the
    single-process dispatcher returns [[1.0]] and the parallel dispatcher
    returns [[0.0]]. *)
Theorem dispatchers_disagree :
  exists single multi st1 st2,
    get_scoring_function (chem := sample_chem) "activity_model" (Some 0%Z) []
      initial_state = (Ok (Single single), st1) /\
    get_scoring_function (chem := sample_chem) "activity_model" (Some 1%Z) []
      initial_state = (Ok (Multi multi), st2) /\
    Singleprocessing_call st1 single ["C1CC1"] = Ok (Arr1 [f1]) /\
    Multiprocessing_call multi ["C1CC1"] [answering [0] line_one]
      (answering [0] line_one) = Some (Ok (Arr1 [f0])).
Proof.
  do 4 eexists. repeat split; reflexivity.
Qed.

(** C7 as stated fails: the override [threshold], which is no configuration
    key of [activity_model], does not make the factory fail. *)
Lemma unrecognized_override_accepted :
  existsb (String.eqb "threshold") activity_model_kwargs = false /\
  exists d st,
    get_scoring_function (chem := sample_chem) "activity_model" (Some 0%Z)
      [("threshold", PFloat (1 # 2)%Q)] initial_state = (Ok d, st).
Proof.
  split; [reflexivity|]. do 2 eexists. reflexivity.
Qed.

(** The amended C7 on the small world: [threshold] after a recognized
    [clf_path] changes nothing. *)
Lemma unrecognized_override_ignored_witness :
  get_scoring_function (chem := sample_chem) "activity_model" (Some 0%Z)
    ([("clf_path", PStr "clf.pkl")] ++ ("threshold", PFloat (1 # 2)%Q) :: [])
    initial_state =
  get_scoring_function (chem := sample_chem) "activity_model" (Some 0%Z)
    ([("clf_path", PStr "clf.pkl")] ++ []) initial_state.
Proof.
  apply (unrecognized_override_ignored (chem := sample_chem)
           "activity_model" activity_model_class activity_model_kwargs).
  - simpl. auto.
  - reflexivity.
  - reflexivity.
  - reflexivity.
Defined.

(** C8 on the empty descriptor, which the small world does not parse. *)
Lemma unparsable_scores_zero_witness :
  MolFromSmiles (Chem := sample_chem) "" = None /\
  (forall self, activity_model_call (chem := sample_chem) self "" = Ok f0) /\
  nth_error (logP_call (chem := sample_chem) ["CCO"; ""]) 1 = Some f0 /\
  (forall k self, tanimoto_call (chem := sample_chem) k self [""] = Ok [f0]).
Proof.
  destruct (unparsable_scores_zero (chem := sample_chem) "" eq_refl)
    as (_ & Htanimoto & HlogP & Hactivity).
  split; [reflexivity|]. split; [exact Hactivity|].
  split; [exact (HlogP ["CCO"; ""] 1 eq_refl)|exact Htanimoto].
Defined.

(** C10 on the name ["Aspirin"], which is not in the catalog. *)
Lemma tanimoto_unknown_structure_witness :
  dict_get structures "Aspirin" = None /\
  exists self,
    tanimoto_init (chem := sample_chem) "Aspirin" initial_state =
      (Ok self, print "can't find this structure" initial_state) /\
    tanimoto_call (chem := sample_chem) (PFloat (7 # 10)%Q) self ["?"; "CCO"] =
      Raise (AttributeError "'tanimoto' object has no attribute 'query_fp'").
Proof.
  split; [reflexivity|].
  destruct (tanimoto_unknown_structure (chem := sample_chem) "Aspirin"
              initial_state eq_refl) as (_ & self & Hinit & _ & Hcall).
  exists self. split; [exact Hinit|].
  apply Hcall. exists "CCO", "CCO". split; [simpl; auto|reflexivity].
Defined.

(** C2 on a batch of three and a pool of two, the thread of worker 1 ending
    before that of worker 0 in the second pass. *)
Lemma result_order_matches_input_witness :
  Multiprocessing_call (pool 2) batch
    [answering [0] line_mixed; answering [1; 0] line_mixed; answering [0] line_mixed]
    (answering [] line_mixed)
  = Some (Ok (Arr1 [(1 # 4)%Q; (1 # 2)%Q; (1 # 2)%Q])).
Proof.
  assert (Hscored : forall order, scored score_mixed batch (answering order line_mixed)).
  { intros order i s [<-|[<-|[<-|[]]]]; reflexivity. }
  assert (Hresp : forall order, responsive (pool 2) (answering (order ++ [0]) line_mixed)).
  { intros order. exists 0. split; [simpl; auto|]. simpl. apply in_or_app. simpl. auto. }
  apply (proj2 (result_order_matches_input (pool 2) batch) score_mixed).
  - repeat apply Forall_cons; try apply Forall_nil; apply Hscored.
  - apply Hscored.
  - repeat apply Forall_cons; try apply Forall_nil;
      [apply (Hresp []) | apply (Hresp [1]) | apply (Hresp [])].
  - simpl. lia.
Defined.

(** C3: after one pass that hands out two descriptors of three, a pass
    that finds every worker dead. *)
Lemma all_dead_raises_witness :
  Multiprocessing_call (pool 2) batch
    ([answering [] line_mixed] ++ dead_pass :: [answering [0; 1] line_mixed])
    (answering [] line_mixed)
  = Some (Raise (RuntimeError "All subprocesses are dead, exiting.")).
Proof.
  eapply all_dead_raises.
  - eapply reaches_pass; [discriminate|reflexivity|apply reaches_here].
  - simpl. discriminate.
  - reflexivity.
Defined.

(** C1 on a batch of three, for a pool of two and for the in-process
    [activity_model]. *)
Lemma dispatchers_keep_length_witness :
  (exists a,
      Multiprocessing_call (pool 2) batch
        [answering [0] line_one; answering [1; 0] line_one; answering [0] line_one]
        (answering [] line_one) = Some (Ok a) /\
      ndarray_len a = 3) /\
  (exists a,
      Singleprocessing_call (chem := sample_chem) initial_state
        {| scoring_function := activity_model_obj sample_model |} batch = Ok a /\
      ndarray_len a = 3).
Proof.
  destruct (dispatchers_keep_length (chem := sample_chem))
    as (_ & Hparallel & _ & Hsingle).
  split.
  - apply (Hparallel (pool 2) batch).
    + repeat apply Forall_cons; try apply Forall_nil; exists 0; simpl; auto.
    + simpl. lia.
  - apply (Hsingle initial_state sample_model batch).
    intros fp. discriminate.
Defined.

(** * Further properties of the code *)

(** ** The adapters *)

Section AdapterScores.
Context {chem : Chem}.

Lemma capped_le (score kf : Q) :
  ((if Qle_bool score kf then score else kf) <= kf)%Q.
Proof.
  destruct (Qle_bool score kf) eqn:H.
  - now apply Qle_bool_iff.
  - apply Qle_refl.
Qed.

Lemma capped_monotone (s1 s2 kf : Q) :
  (s1 <= s2)%Q ->
  ((if Qle_bool s1 kf then s1 else kf) <= (if Qle_bool s2 kf then s2 else kf))%Q.
Proof.
  intros H12.
  destruct (Qle_bool s1 kf) eqn:H1; destruct (Qle_bool s2 kf) eqn:H2.
  - assumption.
  - now apply Qle_bool_iff.
  - assert (Hk : ~ (s1 <= kf)%Q) by (rewrite <- Qle_bool_iff; congruence).
    exfalso. apply Hk. apply Qle_trans with s2; [assumption|].
    now apply Qle_bool_iff.
  - apply Qle_refl.
Qed.

(** X1: [min(score, self.k) / self.k] with a positive number [k]: the result is
    at most 1, it is 1 as soon as the similarity reaches [k], it is not
    negative when the similarity is not, and it does not decrease when the
    similarity grows. *)
Theorem cap_and_scale_range (k : pyval) (kf : Q) :
  as_float k = Some kf ->
  (0 < kf)%Q ->
  (forall score, exists q,
      cap_and_scale score k = Ok q /\
      (q <= 1)%Q /\
      ((kf <= score)%Q -> (q == 1)%Q) /\
      ((0 <= score)%Q -> (0 <= q)%Q)) /\
  (forall s1 s2 q1 q2,
      (s1 <= s2)%Q ->
      cap_and_scale s1 k = Ok q1 ->
      cap_and_scale s2 k = Ok q2 ->
      (q1 <= q2)%Q).
Proof.
  intros Hk Hpos.
  assert (Hnz : Qeq_bool kf 0 = false).
  { destruct (Qeq_bool kf 0) eqn:H; [|reflexivity].
    apply Qeq_bool_iff in H. rewrite H in Hpos. now apply Qlt_irrefl in Hpos. }
  assert (Hinv : (0 <= / kf)%Q) by (apply Qinv_le_0_compat, Qlt_le_weak, Hpos).
  split.
  - intros score. unfold cap_and_scale. rewrite Hk, Hnz.
    eexists. split; [reflexivity|]. repeat split.
    + apply Qle_shift_div_r; [assumption|]. rewrite Qmult_1_l. apply capped_le.
    + intros Hge.
      assert (Hm : ((if Qle_bool score kf then score else kf) == kf)%Q).
      { destruct (Qle_bool score kf) eqn:H; [|reflexivity].
        apply Qle_antisym; [now apply Qle_bool_iff|assumption]. }
      rewrite Hm. unfold Qdiv. apply Qmult_inv_r.
      intros H0. rewrite H0 in Hpos. now apply Qlt_irrefl in Hpos.
    + intros Hs. unfold Qdiv. apply Qmult_le_0_compat; [|assumption].
      destruct (Qle_bool score kf); [assumption|now apply Qlt_le_weak].
  - intros s1 s2 q1 q2 H12. unfold cap_and_scale. rewrite Hk, Hnz.
    intros H1 H2. injection H1 as <-. injection H2 as <-.
    unfold Qdiv. apply Qmult_le_compat_r; [|assumption].
    now apply capped_monotone.
Qed.

(** X2: a [k] that is no number, or is zero, makes the first parsable descriptor
    of a batch raise, [TypeError] or [ZeroDivisionError], when the query
    fingerprint is set. *)
Theorem tanimoto_bad_k (k : pyval) (self : tanimoto) (qfp : Fingerprint)
                       (smiles : list string) :
  query_fp self = Some qfp ->
  (exists s m, In s smiles /\ MolFromSmiles s = Some m) ->
  (as_float k = None ->
   tanimoto_call k self smiles = Raise (TypeError "'<' not supported")) /\
  (forall kf, as_float k = Some kf -> (kf == 0)%Q ->
   tanimoto_call k self smiles = Raise (ZeroDivisionError "float division by zero")).
Proof.
  intros Hfp Hex. unfold tanimoto_call.
  assert (Hgen : forall e,
    (forall score, cap_and_scale score k = Raise e) ->
    tanimoto_loop k self (map MolFromSmiles smiles) = Raise e).
  { intros e He. induction smiles as [|s smiles IH]; simpl.
    - destruct Hex as (s & m & [] & _).
    - destruct (MolFromSmiles s) as [m|] eqn:Hs; simpl.
      + now rewrite Hfp, He.
      + rewrite IH; [reflexivity|].
        destruct Hex as (s' & m & [<-|Hin] & Hm); [congruence|eauto]. }
  split.
  - intros Hk. apply Hgen. intros score. unfold cap_and_scale. now rewrite Hk.
  - intros kf Hk H0. apply Hgen. intros score. unfold cap_and_scale.
    rewrite Hk. now rewrite (Qeq_eq_bool _ _ H0).
Qed.

(** X3: with the query fingerprint set and [k] a number other than zero,
    [tanimoto.__call__] returns one score per descriptor of the batch. *)
Theorem tanimoto_call_length (k : pyval) (kf : Q) (self : tanimoto)
                             (qfp : Fingerprint) (smiles : list string) :
  as_float k = Some kf ->
  ~ (kf == 0)%Q ->
  query_fp self = Some qfp ->
  exists resluts,
    tanimoto_call k self smiles = Ok resluts /\ length resluts = length smiles.
Proof.
  intros Hk Hnz Hfp. unfold tanimoto_call.
  assert (Hz : Qeq_bool kf 0 = false).
  { destruct (Qeq_bool kf 0) eqn:H; [|reflexivity].
    now apply Qeq_bool_iff in H. }
  induction smiles as [|s smiles (r & Hr & Hlen)]; simpl.
  - now exists [].
  - destruct (MolFromSmiles s) as [m|]; simpl.
    + rewrite Hfp. unfold cap_and_scale. rewrite Hk, Hz. simpl. rewrite Hr. simpl.
      eexists. split; [reflexivity|]. simpl. now rewrite Hlen.
    + rewrite Hr. simpl. eexists. split; [reflexivity|]. simpl. now rewrite Hlen.
Qed.

(** X4: [logP.__call__] gives one score per descriptor; the score is 1.0 exactly
    when the descriptor parses and its logP lies in [0, 3], bounds included,
    and 0.0 otherwise. *)
Theorem logP_call_scores (smiles : list string) :
  length (logP_call smiles) = length smiles /\
  forall i s,
    nth_error smiles i = Some s ->
    (nth_error (logP_call smiles) i = Some f1 /\
     exists m, MolFromSmiles s = Some m /\ (0 <= MolLogP m)%Q /\ (MolLogP m <= 3)%Q) \/
    (nth_error (logP_call smiles) i = Some f0 /\
     forall m, MolFromSmiles s = Some m -> ~ ((0 <= MolLogP m)%Q /\ (MolLogP m <= 3)%Q)).
Proof.
  unfold logP_call. split; [now rewrite !length_map|].
  intros i s Hi. rewrite !nth_error_map, Hi. simpl.
  destruct (MolFromSmiles s) as [m|]; simpl.
  - destruct (Qle_bool 0 (MolLogP m)) eqn:H0; destruct (Qle_bool (MolLogP m) 3) eqn:H3;
      simpl.
    + left. split; [reflexivity|]. exists m.
      repeat split; now apply Qle_bool_iff.
    + right. split; [reflexivity|]. intros m' Hm [_ H]. injection Hm as <-.
      apply Qle_bool_iff in H. congruence.
    + right. split; [reflexivity|]. intros m' Hm [H _]. injection Hm as <-.
      apply Qle_bool_iff in H. congruence.
    + right. split; [reflexivity|]. intros m' Hm [H _]. injection Hm as <-.
      apply Qle_bool_iff in H. congruence.
  - right. split; [reflexivity|]. intros m Hm. discriminate.
Qed.

End AdapterScores.

Section AdapterShapes.
Context {chem : Chem}.

Lemma structures_not_empty name s :
  dict_get structures name = Some s -> is_empty s = false.
Proof.
  unfold structures. cbn [dict_get].
  repeat (destruct (String.eqb _ name);
          [intros H; injection H as <-; reflexivity|]).
  discriminate.
Qed.

Lemma cap_saturates (k : pyval) (kf score : Q) :
  as_float k = Some kf -> (0 < kf)%Q -> (kf <= score)%Q ->
  exists q, cap_and_scale score k = Ok q /\ (q == 1)%Q.
Proof.
  intros Hk Hpos Hge. unfold cap_and_scale. rewrite Hk.
  assert (Hne : ~ (kf == 0)%Q).
  { intros H0. rewrite H0 in Hpos. now apply Qlt_irrefl in Hpos. }
  destruct (Qeq_bool kf 0) eqn:Hz; [now apply Qeq_bool_iff in Hz|].
  eexists. split; [reflexivity|].
  assert (Hm : ((if Qle_bool score kf then score else kf) == kf)%Q).
  { destruct (Qle_bool score kf) eqn:H; [|reflexivity].
    apply Qle_antisym; [now apply Qle_bool_iff|assumption]. }
  rewrite Hm. unfold Qdiv. now apply Qmult_inv_r.
Qed.

(** X5: for a name of the catalog whose structure parses, [tanimoto.__init__]
    prints nothing and sets the query fingerprint; if a fingerprint has
    similarity 1 to itself and 0 < k <= 1, the instance then gives the
    reference structure itself the score 1. *)
Theorem tanimoto_known_structure (name s : string) (m : Mol) (st : pystate) :
  dict_get structures name = Some s ->
  MolFromSmiles s = Some m ->
  let self := {| query_structure := Some s;
                 query_fp := Some (GetMorganFingerprint m 2) |} in
  tanimoto_init name st = (Ok self, st) /\
  forall k kf,
    as_float k = Some kf -> (0 < kf)%Q -> (kf <= 1)%Q ->
    (TanimotoSimilarity (GetMorganFingerprint m 2) (GetMorganFingerprint m 2) == 1)%Q ->
    exists q, tanimoto_call k self [s] = Ok [q] /\ (q == 1)%Q.
Proof.
  intros Hname Hs self. split.
  - unfold tanimoto_init. rewrite Hname, (structures_not_empty name s Hname), Hs.
    reflexivity.
  - intros k kf Hk Hpos Hle Hsim.
    unfold tanimoto_call. simpl. rewrite Hs. simpl.
    destruct (cap_saturates k kf
                (TanimotoSimilarity (GetMorganFingerprint m 2) (GetMorganFingerprint m 2))
                Hk Hpos) as (q & -> & Hq).
    { now rewrite Hsim. }
    simpl. now exists q.
Qed.

Lemma wrap32_range z : (- 2 ^ 31 <= wrap32 z < 2 ^ 31)%Z.
Proof.
  unfold wrap32.
  pose proof (Z.mod_pos_bound (z + 2 ^ 31) (2 ^ 32) eq_refl) as H.
  change (2 ^ 32)%Z with (2 * 2 ^ 31)%Z in *. lia.
Qed.

Lemma wrap32_small z : (- 2 ^ 31 <= z < 2 ^ 31)%Z -> wrap32 z = z.
Proof.
  intros H. unfold wrap32. rewrite Z.mod_small; [lia|].
  change (2 ^ 32)%Z with (2 * 2 ^ 31)%Z. lia.
Qed.

Lemma add_at_length i v : forall row, length (add_at i v row) = length row.
Proof.
  induction i as [|i IH]; intros [|x row]; simpl; auto.
Qed.

Lemma add_at_int32 i v : forall row,
  Forall (fun x => (- 2 ^ 31 <= x < 2 ^ 31)%Z) row ->
  Forall (fun x => (- 2 ^ 31 <= x < 2 ^ 31)%Z) (add_at i v row).
Proof.
  induction i as [|i IH]; intros [|x row] H; simpl; auto;
    inversion H; subst; constructor; auto using wrap32_range.
Qed.

Lemma add_at_sum v : forall i row,
  i < length row ->
  Forall (fun x => (0 <= x)%Z) row ->
  (0 <= v)%Z ->
  (fold_right Z.add 0 row + v < 2 ^ 31)%Z ->
  Forall (fun x => (0 <= x)%Z) (add_at i v row) /\
  fold_right Z.add 0%Z (add_at i v row) = (fold_right Z.add 0 row + v)%Z.
Proof.
  assert (Hsum : forall row, Forall (fun x => (0 <= x)%Z) row ->
                             (0 <= fold_right Z.add 0 row)%Z).
  { induction 1; simpl; lia. }
  induction i as [|i IH]; intros [|x row] Hi Hrow Hv Hlt; simpl in *; try lia;
    inversion Hrow as [|? ? Hx Hrest]; subst; pose proof (Hsum row Hrest).
  - rewrite wrap32_small by lia. split; [constructor; [lia|assumption]|lia].
  - destruct (IH row) as [Hnn Heq]; [lia|assumption|assumption|lia|].
    split; [now constructor|lia].
Qed.

Lemma fold_row (elems : list (Z * Z)) : forall row,
  length row = 2048 ->
  let out := fold_left (fun nfp '(idx, v) => add_at (Z.to_nat (idx mod 2048)) v nfp)
                       elems row in
  length out = 2048 /\
  (Forall (fun x => (- 2 ^ 31 <= x < 2 ^ 31)%Z) row ->
   Forall (fun x => (- 2 ^ 31 <= x < 2 ^ 31)%Z) out) /\
  (Forall (fun x => (0 <= x)%Z) row ->
   Forall (fun e => (0 <= snd e)%Z) elems ->
   (fold_right Z.add 0 row + fold_right Z.add 0 (map snd elems) < 2 ^ 31)%Z ->
   fold_right Z.add 0%Z out =
   (fold_right Z.add 0 row + fold_right Z.add 0 (map snd elems))%Z).
Proof.
  induction elems as [|[idx v] elems IH]; intros row Hlen; simpl.
  - repeat split; auto. intros _ _ _. lia.
  - assert (Hi : Z.to_nat (idx mod 2048) < length row).
    { rewrite Hlen. pose proof (Z.mod_pos_bound idx 2048 eq_refl). lia. }
    destruct (IH (add_at (Z.to_nat (idx mod 2048)) v row)) as (IHlen & IH32 & IHsum).
    { now rewrite add_at_length. }
    split; [exact IHlen|]. split.
    + intros H32. now apply IH32, add_at_int32.
    + intros Hnn Helems Hlt. inversion Helems as [|? ? Hv Hrest]; subst.
      simpl in Hv.
      assert (Hvs : (0 <= fold_right Z.add 0 (map snd elems))%Z).
      { clear - Hrest. induction Hrest; simpl; lia. }
      destruct (add_at_sum v (Z.to_nat (idx mod 2048)) row Hi Hnn Hv) as [Hnn' Heq];
        [lia|].
      rewrite IHsum; [lia|assumption|assumption|lia].
Qed.

(** X6: [fingerprints_from_mol] returns a row of 2048 counts, each an [int32];
    and when the counts of the fingerprint are not negative and add up to
    less than 2^31, folding the indices modulo 2048 loses none of them: the
    row adds up to the same total. *)
Theorem fingerprints_from_mol_row (mol : Mol) :
  length (fingerprints_from_mol mol) = 2048 /\
  Forall (fun x => (- 2 ^ 31 <= x < 2 ^ 31)%Z) (fingerprints_from_mol mol) /\
  (Forall (fun e => (0 <= snd e)%Z) (GetNonzeroElements (GetMorganFingerprint mol 3)) ->
   (fold_right Z.add 0 (map snd (GetNonzeroElements (GetMorganFingerprint mol 3)))
      < 2 ^ 31)%Z ->
   fold_right Z.add 0%Z (fingerprints_from_mol mol) =
   fold_right Z.add 0%Z (map snd (GetNonzeroElements (GetMorganFingerprint mol 3)))).
Proof.
  unfold fingerprints_from_mol.
  destruct (fold_row (GetNonzeroElements (GetMorganFingerprint mol 3))
              (repeat 0%Z (Z.to_nat 2048))) as (Hlen & H32 & Hsum).
  { now rewrite repeat_length. }
  assert (Hzero : forall x, In x (repeat 0%Z (Z.to_nat 2048)) -> x = 0%Z).
  { intros x Hx. now apply repeat_spec in Hx. }
  split; [exact Hlen|]. split.
  - apply H32. apply Forall_forall. intros x Hx. rewrite (Hzero x Hx).
    change (2 ^ 31)%Z with 2147483648%Z. lia.
  - intros Hnn Hlt.
    assert (Hsum0 : fold_right Z.add 0%Z (repeat 0%Z (Z.to_nat 2048)) = 0%Z).
    { generalize (Z.to_nat 2048) as c. intros c.
      induction c as [|c IHc]; simpl; [reflexivity|exact IHc]. }
    rewrite Hsum; [lia| |assumption|lia].
    apply Forall_forall. intros x Hx. rewrite (Hzero x Hx). lia.
Qed.

End AdapterShapes.

(** ** The worker *)

Section WorkerScores.

Lemma prefix_rest_app p a b : prefix_rest (p ++ a) (p ++ b) = prefix_rest a b.
Proof.
  induction p as [|c p IH]; simpl; [reflexivity|].
  now rewrite Ascii.eqb_refl.
Qed.

Lemma re_search_here m s t pos : m s = Some t -> re_search m s pos = Some (pos, t).
Proof.
  intros H. destruct s; simpl; now rewrite H.
Qed.

Lemma expect_well_formed smile :
  expect smile {| received := smile ++ " 1.0"; closed := false |}
    = Ok (0, smile ++ " 1.0").
Proof.
  unfold expect. simpl received.
  assert (Hm : match_score smile (smile ++ " 1.0") = Some (smile ++ " 1.0")).
  { unfold match_score. rewrite (prefix_rest_app smile " 1." " 1.0"). reflexivity. }
  rewrite (re_search_here _ _ _ 0 Hm).
  destruct (re_search match_none (smile ++ " 1.0") 0) as [[p1 t1]|]; reflexivity.
Qed.

(** X7: on the well-formed answer "<descriptor> 1.0" the worker computes 1.0
    exactly for the descriptors without the character '1'; for the others
    [lstrip] eats into the score and the worker computes 0.0, or [float]
    raises [ValueError] on what is left. *)
Theorem worker_recovers_one_iff (smile : string) :
  let ex := {| received := smile ++ " 1.0"; closed := false |} in
  (mem_char "1" smile = false -> Worker_score smile ex = Ok f1) /\
  (mem_char "1" smile = true ->
   Worker_score smile ex = Ok f0 \/
   Worker_score smile ex = Raise (ValueError "could not convert string to float")).
Proof.
  intros ex. unfold Worker_score, ex. rewrite expect_well_formed. simpl bind.
  change (smile ++ " 1.0") with (smile ++ String " " "1.0").
  rewrite (append_space smile "1.0"), (lstrip_app _ (smile ++ " ") "1.0")
    by (apply all_chars_members; auto).
  cbn [Nat.eqb lstrip].
  rewrite !mem_char_app. cbn [mem_char Ascii.eqb Bool.eqb andb orb].
  rewrite !orb_false_r.
  split; intros H1; rewrite H1.
  - reflexivity.
  - destruct (mem_char "." smile); [destruct (mem_char "0" smile)|]; auto.
Qed.

Lemma all_chars_app f a b :
  all_chars f (a ++ b) = all_chars f a && all_chars f b.
Proof.
  induction a as [|c a IH]; simpl; [reflexivity|]. now rewrite IH, andb_assoc.
Qed.

Lemma digits_value_nonneg s : forall acc,
  all_chars is_digit s = true -> (0 <= acc)%Z -> (0 <= digits_value acc s)%Z.
Proof.
  induction s as [|c s IH]; cbn [digits_value all_chars]; intros acc H Hacc;
    [assumption|].
  apply andb_true_iff in H as [Hc Hs]. apply IH; [assumption|].
  unfold is_digit in Hc. cbv zeta in Hc. apply andb_true_iff in Hc as [Hlo _].
  apply Nat.leb_le in Hlo. lia.
Qed.

Lemma float_of_string_nonneg s q : float_of_string s = Ok q -> (0 <= q)%Q.
Proof.
  unfold float_of_string.
  destruct (span is_digit s) as [ip r] eqn:Hip.
  assert (Hdigits : forall d, all_chars is_digit d = true ->
    (0 <= Qred (digits_value 0 (ip ++ d) # Z.to_pos (10 ^ Z.of_nat (String.length d))))%Q).
  { intros d Hd. rewrite Qred_correct. unfold Qle. simpl.
    rewrite Z.mul_1_r. apply digits_value_nonneg; [|lia].
    rewrite all_chars_app, Hd, (span_all _ _ _ _ Hip). reflexivity. }
  destruct r as [|c r'].
  - destruct (is_empty ip && is_empty ""); [discriminate|].
    intros H. injection H as <-. now apply Hdigits.
  - destruct (Ascii.eqb c "."); [|discriminate].
    destruct (span is_digit r') as [d r''] eqn:Hd.
    destruct (is_empty r''); [|discriminate].
    destruct (is_empty ip && is_empty d); [discriminate|].
    intros H. injection H as <-. apply Hdigits. eapply span_all; eauto.
Qed.

(** X8: whatever the subprocess sends, a score computed by the worker is never
    negative. *)
Theorem Worker_score_nonneg (smile : string) (ex : exchange) (q : Q) :
  Worker_score smile ex = Ok q -> (0 <= q)%Q.
Proof.
  unfold Worker_score.
  destruct (expect smile ex) as [[output after]|]; [|discriminate]. simpl.
  destruct (output =? 0).
  - apply float_of_string_nonneg.
  - intros H. injection H as <-. apply Qle_refl.
Qed.

End WorkerScores.

(** ** The parallel dispatcher: threads and slots *)

Section ThreadsAndSlots.
Variable self : Multiprocessing.
Variable smiles : list string.

Lemma finish_names_incl t st i j :
  In j (thread_names (finish t st i)) -> In j (thread_names st).
Proof.
  unfold finish, thread_names.
  destruct (take_thread i (threads st)) as [[th rest]|] eqn:Htake; [|auto].
  apply take_thread_some in Htake as (_ & a & b & -> & ->). simpl.
  rewrite !map_app. simpl. intros H.
  apply in_app_or in H. apply in_or_app. simpl. tauto.
Qed.

Lemma settle_names_incl t st j :
  In j (thread_names (settle t st)) -> In j (thread_names st).
Proof.
  unfold settle. generalize (finished t) as fin. intros fin. revert st.
  induction fin as [|i fin IH]; intros st; simpl; [auto|].
  intros H. apply IH in H. eapply finish_names_incl; eauto.
Qed.

Lemma dispatch_names_incl free : forall st j,
  In j (thread_names (dispatch free st)) -> In j (thread_names st) \/ In j free.
Proof.
  induction free as [|i free IH]; intros st j; simpl; [auto|].
  destruct (pop (smiles_copy st)) as [[smile rest]|].
  - intros H. apply IH in H as [H|H]; [|auto].
    unfold thread_names in H. simpl in H. rewrite map_app in H.
    apply in_app_or in H as [H|[<-|[]]]; auto.
  - intros H. apply IH in H as [H|H]; auto.
Qed.

Lemma reaches_names trace st st' :
  reaches self trace st st' ->
  NoDup (thread_names st) /\
  (forall i, In i (thread_names st) -> i < length (workers self)) ->
  NoDup (thread_names st') /\
  (forall i, In i (thread_names st') -> i < length (workers self)).
Proof.
  induction 1 as [|t trace st st1 st2 Hq Hit Hreach IH]; [auto|].
  intros [Hnd Hlt]. apply IH. split.
  - eapply iteration_names; eauto.
  - apply iteration_ok in Hit as [_ ->]. intros i Hi.
    apply dispatch_names_incl in Hi as [Hi|Hi].
    + apply Hlt. eapply settle_names_incl; eauto.
    + apply filter_In in Hi as [Hi _]. apply filter_In in Hi as [Hi _].
      apply in_seq in Hi. lia.
Qed.

(** X10: in every state the passes reach, no two running threads bear the same
    worker name, every name is the index of a worker of the pool, and hence
    at most as many threads run as there are workers. *)
Theorem one_thread_per_worker (trace : list tick) (st : mstate) :
  reaches self trace (start smiles) st ->
  NoDup (thread_names st) /\
  (forall i, In i (thread_names st) -> i < length (workers self)) /\
  length (threads st) <= length (workers self).
Proof.
  intros Hreach.
  destruct (reaches_names _ _ _ Hreach) as [Hnd Hlt].
  { split; [constructor|intros i []]. }
  repeat split; auto.
  assert (H : length (thread_names st) <= length (seq 0 (length (workers self)))).
  { apply NoDup_incl_length; [assumption|].
    intros i Hi. apply in_seq. specialize (Hlt i Hi). lia. }
  unfold thread_names in H. now rewrite length_map, length_seq in H.
Qed.

Variable ticks : list tick.

Lemma run_thread_provenance t th l :
  In t ticks ->
  nth_error smiles (th_index th) = Some (th_smile th) ->
  provenance smiles ticks l ->
  provenance smiles ticks (run_thread t th l).
Proof.
  intros Ht Hth [Hlen Hslots]. unfold run_thread, Worker_call.
  destruct (Worker_score (th_smile th) (reply t (th_name th) (th_smile th)))
    as [q|e] eqn:Hq; simpl; [|now split].
  assert (Hidx : th_index th < length l).
  { rewrite Hlen. now apply nth_error_Some_lt in Hth. }
  destruct (list_set_ok l (th_index th) (PFloat q) Hidx)
    as (l' & -> & Hl' & Hnth & Hother).
  split; [congruence|]. intros i s Hi.
  destruct (Nat.eq_dec i (th_index th)) as [->|Hne].
  - right. exists t, (th_name th), q. repeat split; auto. congruence.
  - rewrite (Hother i Hne). now apply Hslots.
Qed.

Lemma finish_provenance t st i :
  In t ticks ->
  queue_aligned smiles st ->
  provenance smiles ticks (scores st) ->
  provenance smiles ticks (scores (finish t st i)).
Proof.
  intros Ht [_ Hal] Hp. unfold finish.
  destruct (take_thread i (threads st)) as [[th rest]|] eqn:Htake; [|assumption].
  apply take_thread_some in Htake as (_ & a & b & Hths & _). simpl.
  apply run_thread_provenance; auto. apply Hal. rewrite Hths.
  apply in_or_app. simpl. auto.
Qed.

Lemma settle_provenance t st :
  In t ticks ->
  queue_aligned smiles st ->
  provenance smiles ticks (scores st) ->
  provenance smiles ticks (scores (settle t st)).
Proof.
  intros Ht. unfold settle. generalize (finished t) as fin. intros fin. revert st.
  induction fin as [|i fin IH]; intros st Hal Hp; simpl; [assumption|].
  apply IH; [now apply finish_aligned|now apply finish_provenance].
Qed.

Lemma reaches_provenance trace st st' :
  reaches self trace st st' ->
  incl trace ticks ->
  queue_aligned smiles st ->
  provenance smiles ticks (scores st) ->
  queue_aligned smiles st' /\ provenance smiles ticks (scores st').
Proof.
  induction 1 as [|t trace st st1 st2 Hq Hit Hreach IH]; intros Hincl Hal Hp.
  - now split.
  - apply iteration_ok in Hit as [_ ->].
    assert (Ht : In t ticks) by (apply Hincl; simpl; auto).
    apply IH.
    + intros x Hx. apply Hincl. simpl. auto.
    + now apply dispatch_aligned, settle_aligned.
    + rewrite dispatch_scores. now apply settle_provenance.
Qed.

Lemma join_provenance t st :
  In t ticks ->
  queue_aligned smiles st ->
  provenance smiles ticks (scores st) ->
  provenance smiles ticks (scores (join t st)).
Proof.
  intros Ht Hal Hp. unfold join. simpl.
  apply (settle_provenance t st Ht Hal) in Hp.
  apply (settle_aligned smiles t) in Hal. destruct Hal as [_ Hal].
  unfold aligned in Hal. revert Hp Hal.
  generalize (scores (settle t st)) as l.
  induction (threads (settle t st)) as [|th ths IH]; intros l Hp Hal; simpl;
    [assumption|].
  apply IH.
  - apply run_thread_provenance; auto. apply Hal. simpl. auto.
  - intros x Hx. apply Hal. simpl. auto.
Qed.

Lemma all_floats_nth l : forall qs i v,
  all_floats l = Some qs ->
  nth_error l i = Some v ->
  exists q, as_float v = Some q /\ nth_error qs i = Some q.
Proof.
  induction l as [|x l IH]; intros qs i v H Hi; [destruct i; discriminate|].
  simpl in H. destruct (as_float x) as [q|] eqn:Hx; [|discriminate].
  destruct (all_floats l) as [qs'|]; [|discriminate]. injection H as <-.
  destruct i as [|i]; simpl in *.
  - injection Hi as <-. eauto.
  - eapply IH; eauto.
Qed.

End ThreadsAndSlots.

(** X11: for every behaviour of workers and subprocesses, an array the parallel
    dispatcher returns is one-dimensional, and each of its slots is either
    0.0 or a score that a worker computed for the descriptor at that very
    position of the batch: no score ever lands in the slot of another
    descriptor. *)
Theorem slots_hold_own_scores
    (self : Multiprocessing) (smiles : list string) (trace : list tick) (last : tick)
    (a : ndarray) :
  Multiprocessing_call self smiles trace last = Some (Ok a) ->
  exists qs,
    a = Arr1 qs /\
    length qs = length smiles /\
    forall i s,
      nth_error smiles i = Some s ->
      nth_error qs i = Some f0 \/
      exists t w q,
        In t (trace ++ [last]) /\
        Worker_score s (reply t w s) = Ok q /\
        nth_error qs i = Some q.
Proof.
  unfold Multiprocessing_call.
  destruct (loop self trace (start smiles)) as [[st|]|] eqn:Hloop; try discriminate.
  intros H0.
  assert (H : np_array (scores (join last st)) = Ok a) by congruence. clear H0.
  apply loop_reaches in Hloop as (_ & used & Hreach & Hincl).
  destruct (reaches_provenance self smiles (trace ++ [last]) used _ _ Hreach)
    as [Hal Hp].
  { intros x Hx. apply in_or_app. auto. }
  { apply start_aligned. }
  { split; [apply repeat_length|]. intros i s Hi. left. simpl.
    rewrite nth_error_repeat; [reflexivity|]. now apply nth_error_Some_lt in Hi. }
  apply (join_provenance smiles (trace ++ [last]) last) in Hp;
    [|apply in_or_app; simpl; auto|assumption].
  destruct Hp as [Hlen Hslots].
  unfold np_array in H.
  destruct (all_floats (scores (join last st))) as [qs|] eqn:Hqs.
  - injection H as <-. exists qs. split; [reflexivity|].
    split; [rewrite <- Hlen; now apply all_floats_length|].
    intros i s Hi. destruct (Hslots i s Hi) as [H0|(t & w & q & Ht & Hq & Hnth)].
    + left. destruct (all_floats_nth _ _ _ _ Hqs H0) as (q & Hq & Hnth).
      simpl in Hq. injection Hq as <-. exact Hnth.
    + right. exists t, w, q. repeat split; auto.
      destruct (all_floats_nth _ _ _ _ Hqs Hnth) as (q' & Hq' & Hnth').
      simpl in Hq'. now injection Hq' as <-.
  - exfalso.
    assert (Hnone : forall l, length l = length smiles ->
              (forall i s, nth_error smiles i = Some s ->
                 nth_error l i = Some (PInt 0) \/
                 exists t w q, In t (trace ++ [last]) /\
                   Worker_score s (reply t w s) = Ok q /\
                   nth_error l i = Some (PFloat q)) ->
              all_floats l <> None).
    { clear. induction smiles as [|s smiles IH]; intros [|v l] Hlen Hsl;
        try discriminate.
      simpl. simpl in Hlen.
      assert (Hv : exists q, as_float v = Some q).
      { destruct (Hsl 0 s eq_refl) as [H|(t & w & q & _ & _ & H)];
          simpl in H; injection H as ->; simpl; eauto. }
      destruct Hv as [q ->].
      destruct (all_floats l) eqn:Hl; [discriminate|].
      exfalso. apply (IH l); [lia| |assumption].
      intros i s' Hi. apply (Hsl (S i) s' Hi). }
    now apply (Hnone _ Hlen Hslots).
Qed.

(** ** Edge cases of the dispatchers *)

Section DispatcherEdges.
Context {chem : Chem}.

Lemma settle_no_thread t st : threads st = [] -> settle t st = st.
Proof.
  intros Hths. unfold settle.
  induction (finished t) as [|i fin IH]; simpl; [reflexivity|].
  unfold finish at 2. now rewrite Hths.
Qed.

(** X12: on the empty batch both dispatchers return the empty array; the parallel
    one does so without a look at its workers, be they all dead or none. *)
Theorem empty_batch_empty_array :
  (forall self trace last,
      Multiprocessing_call self [] trace last = Some (Ok (Arr1 []))) /\
  (forall st self, Singleprocessing_call st self [] = Ok (Arr1 [])).
Proof.
  split; [|reflexivity].
  intros self trace last. unfold Multiprocessing_call.
  assert (Hloop : loop self trace (start []) = Some (Ok (start []))).
  { destruct trace; reflexivity. }
  rewrite Hloop. unfold join. now rewrite settle_no_thread.
Qed.

(** X13: a pool without workers raises on every non-empty batch at its first
    pass. *)
Theorem no_worker_raises (self : Multiprocessing) (smiles : list string)
                         (t : tick) (trace : list tick) (last : tick) :
  workers self = [] ->
  smiles <> [] ->
  Multiprocessing_call self smiles (t :: trace) last = Some (Raise all_dead).
Proof.
  intros Hw Hs. unfold Multiprocessing_call. simpl.
  destruct smiles; [contradiction|].
  unfold iteration, alive_workers. now rewrite Hw.
Qed.

Lemma comprehension_total {A B : Type} (g : A -> result B) (h : A -> B) l :
  (forall x, g x = Ok (h x)) -> comprehension g l = Ok (map h l).
Proof.
  intros H. induction l as [|x l IH]; simpl; [reflexivity|].
  now rewrite H, IH.
Qed.

Lemma chars_length s : length (chars s) = String.length s.
Proof.
  induction s as [|c s IH]; simpl; auto.
Qed.

Lemma all_rows_map (h : string -> list Q) w l :
  Forall (fun x => length (h x) = w) l ->
  all_rows w (map (fun x => PList (h x)) l) = Some (map h l).
Proof.
  induction 1 as [|x l Hx _ IH]; simpl; [reflexivity|].
  now rewrite Hx, Nat.eqb_refl, IH.
Qed.

Lemma all_rows_ragged (h : string -> list Q) w l x :
  In x l -> length (h x) <> w ->
  all_rows w (map (fun x => PList (h x)) l) = None.
Proof.
  induction l as [|y l IH]; intros Hin Hne; [destruct Hin|]. simpl.
  destruct (length (h y) =? w) eqn:Hy.
  - destruct Hin as [->|Hin].
    + apply Nat.eqb_eq in Hy. contradiction.
    + now rewrite IH.
  - reflexivity.
Qed.

(** X14: run in the main process, [logP] receives one descriptor where it expects
    a batch and scores its characters one by one: the dispatcher returns a
    two-dimensional array, one row per descriptor and one column per
    character, when all descriptors have the same number of characters, and
    raises [ValueError] when two of them differ in length. *)
Theorem Singleprocessing_logP_by_character (st : pystate) (s : string)
                                           (rest : list string) :
  let self := {| scoring_function := logP_obj |} in
  (Forall (fun x => String.length x = String.length s) rest ->
   Singleprocessing_call st self (s :: rest) =
     Ok (Arr2 (map (fun x => logP_call (chars x)) (s :: rest)))) /\
  ((exists x, In x rest /\ String.length x <> String.length s) ->
   Singleprocessing_call st self (s :: rest) =
     Raise (ValueError "setting an array element with a sequence")).
Proof.
  intros self.
  assert (Hlen : forall x, length (logP_call (chars x)) = String.length x).
  { intros x. unfold logP_call. now rewrite !length_map, chars_length. }
  assert (Hc : comprehension (adapter_call st (scoring_function self)) (s :: rest)
               = Ok (map (fun x => PList (logP_call (chars x))) (s :: rest))).
  { now apply comprehension_total. }
  unfold Singleprocessing_call. rewrite Hc. cbn [bind].
  unfold np_array. cbn [map all_floats as_float].
  split.
  - intros Hall.
    change (PList (logP_call (chars s))
              :: map (fun x => PList (logP_call (chars x))) rest)
      with (map (fun x => PList (logP_call (chars x))) (s :: rest)).
    rewrite all_rows_map; [reflexivity|].
    constructor; [reflexivity|].
    eapply Forall_impl; [|exact Hall]. intros x Hx. simpl in Hx.
    now rewrite !Hlen, Hx.
  - intros (x & Hin & Hne).
    change (PList (logP_call (chars s))
              :: map (fun x => PList (logP_call (chars x))) rest)
      with (map (fun x => PList (logP_call (chars x))) (s :: rest)).
    rewrite (all_rows_ragged _ _ _ x); [reflexivity|simpl; auto|].
    now rewrite !Hlen.
Qed.

End DispatcherEdges.

(** ** The factory *)

Section FactoryEdges.
Context {chem : Chem}.

Lemma apply_overrides_ok c kwargs : forall st,
  In c scoring_function_classes ->
  exists st',
    apply_overrides c kwargs st = (Ok tt, st') /\
    spawned st' = spawned st /\ stdout st' = stdout st.
Proof.
  induction kwargs as [|[k v] kwargs IH]; intros st Hin; cbn [apply_overrides].
  - eauto.
  - destruct (class_kwargs c) as [allowed|e] eqn:Hc.
    2: { destruct Hin as [<-|[<-|[]]]; discriminate. }
    destruct (existsb (String.eqb k) allowed); [|now apply IH].
    destruct (IH (setattr c k v st) Hin) as (st' & -> & Hs & Ho).
    exists st'. split; [reflexivity|]. rewrite Hs, Ho.
    destruct c; simpl; try destruct (String.eqb k "k"); auto.
Qed.

Lemma select_class c :
  In c scoring_function_classes ->
  filter (fun f => String.eqb (class_name f) (class_name c)) scoring_function_classes
    = [c] /\
  negb (existsb (String.eqb (class_name c)) (map class_name scoring_function_classes))
    = false.
Proof.
  intros [<-|[<-|[]]]; split; reflexivity.
Qed.

Lemma factory_unfold c num_processes kwargs st :
  In c scoring_function_classes ->
  get_scoring_function (class_name c) num_processes kwargs st =
  let st' := snd (apply_overrides c kwargs st) in
  match num_processes with
  | Some 0%Z =>
      let (r, st'') := Singleprocessing_init c st' in
      (d <- r ;; Ok (Single d), st'')
  | _ =>
      let (r, st'') := Multiprocessing_init num_processes (class_name c) st' in
      (d <- r ;; Ok (Multi d), st'')
  end.
Proof.
  intros Hin. unfold get_scoring_function.
  destruct (select_class c Hin) as [-> ->].
  destruct (apply_overrides_ok c kwargs st Hin) as (st' & -> & _). reflexivity.
Qed.

Ltac unfold_factory c np kw st :=
  let H := fresh "Hfactory" in
  pose proof (factory_unfold c np kw st) as H;
  cbn [class_name] in H;
  rewrite H by (simpl; auto);
  clear H.

(** X15: in the main process [tanimoto] cannot be had: for all overrides, which
    are applied all the same, [get_scoring_function("tanimoto", 0, ...)]
    raises the [TypeError] of [tanimoto()] called without its
    [query_structure]. *)
Theorem tanimoto_in_process_TypeError :
  forall kwargs st,
    get_scoring_function "tanimoto" (Some 0%Z) kwargs st =
      (Raise (TypeError
                "__init__() missing 1 required positional argument: 'query_structure'"),
       snd (apply_overrides tanimoto_class kwargs st)).
Proof.
  intros kwargs st.
  unfold_factory tanimoto_class (Some 0%Z) kwargs st. reflexivity.
Qed.

(** X16: with [num_processes] left at its default [None], the factory raises a
    [TypeError] for both registered adapters, once the overrides are applied
    and before any subprocess is spawned. *)
Theorem default_num_processes_TypeError :
  forall kwargs st,
    let e := TypeError "'NoneType' object cannot be interpreted as an integer" in
    get_scoring_function "tanimoto" None kwargs st =
      (Raise e, snd (apply_overrides tanimoto_class kwargs st)) /\
    get_scoring_function "activity_model" None kwargs st =
      (Raise e, snd (apply_overrides activity_model_class kwargs st)) /\
    spawned (snd (apply_overrides tanimoto_class kwargs st)) = spawned st /\
    spawned (snd (apply_overrides activity_model_class kwargs st)) = spawned st.
Proof.
  intros kwargs st e.
  unfold_factory tanimoto_class (@None Z) kwargs st.
  unfold_factory activity_model_class (@None Z) kwargs st.
  repeat split.
  - destruct (apply_overrides_ok tanimoto_class kwargs st) as (st' & -> & Hs & _);
      simpl; auto.
  - destruct (apply_overrides_ok activity_model_class kwargs st) as (st' & -> & Hs & _);
      simpl; auto.
Qed.

Lemma spawn_workers_ok name b count : forall st,
  pexpect_spawn ("./multiprocess.py " ++ name) = Ok b ->
  exists st',
    spawn_workers count name st =
      (Ok (repeat {| proc := "./multiprocess.py " ++ name |} count), st') /\
    spawned st' =
      (spawned st ++ repeat ("./multiprocess.py " ++ name)%string count)%list /\
    length (stdout st') = length (stdout st) + count.
Proof.
  intros st Hspawn. revert st.
  induction count as [|count IH]; intros st; cbn [spawn_workers].
  - exists st. rewrite app_nil_r. repeat split. lia.
  - unfold Worker_init. rewrite Hspawn.
    destruct (IH (print (if b then "True" else "False")
                    (record_spawn ("./multiprocess.py " ++ name) st)))
      as (st' & -> & Hs & Ho).
    exists st'. repeat split.
    + rewrite Hs. simpl. now rewrite <- app_assoc.
    + rewrite Ho. simpl. rewrite length_app. simpl. lia.
Qed.

(** X17: for a registered adapter and a positive [num_processes], when the worker
    command starts the factory returns a pool of exactly [num_processes]
    workers, having spawned that many subprocesses with the command
    "./multiprocess.py <name>" and printed one line for each; when the
    command does not start, its exception is what the factory raises. *)
Theorem factory_pool (c : adapter_class) (z : Z)
                     (kwargs : list (string * pyval)) (st : pystate) :
  In c scoring_function_classes ->
  (0 < z)%Z ->
  let st0 := snd (apply_overrides c kwargs st) in
  let cmd := "./multiprocess.py " ++ class_name c in
  (forall b, pexpect_spawn cmd = Ok b ->
     exists st',
       get_scoring_function (class_name c) (Some z) kwargs st =
         (Ok (Multi {| n := Some z; workers := repeat {| proc := cmd |} (Z.to_nat z) |}),
          st') /\
       spawned st' = (spawned st ++ repeat cmd (Z.to_nat z))%list /\
       length (stdout st') = length (stdout st) + Z.to_nat z) /\
  (forall e, pexpect_spawn cmd = Raise e ->
     get_scoring_function (class_name c) (Some z) kwargs st = (Raise e, st0)).
Proof.
  intros Hin Hz st0 cmd.
  rewrite (factory_unfold c (Some z) kwargs st Hin).
  destruct (apply_overrides_ok c kwargs st Hin) as (st1 & Hap & Hs1 & Ho1).
  assert (Hst0 : st0 = st1) by (unfold st0; now rewrite Hap).
  fold st0. rewrite Hst0. cbv zeta.
  destruct z as [|z|z]; try lia. unfold Multiprocessing_init.
  split.
  - intros b Hb.
    destruct (spawn_workers_ok (class_name c) b (Z.to_nat (Z.pos z)) st1 Hb)
      as (st' & -> & Hs & Ho).
    exists st'. repeat split.
    + rewrite Hs, Hs1. reflexivity.
    + rewrite Ho, Ho1. reflexivity.
  - intros e He.
    destruct (Z.to_nat (Z.pos z)) as [|count] eqn:Hc; [lia|].
    cbn [spawn_workers]. unfold Worker_init. fold cmd. now rewrite He.
Qed.

(** X18: a negative [num_processes] gives a pool without any worker, and no
    subprocess is spawned. *)
Theorem factory_negative_pool (c : adapter_class) (z : Z)
                              (kwargs : list (string * pyval)) (st : pystate) :
  In c scoring_function_classes ->
  (z < 0)%Z ->
  get_scoring_function (class_name c) (Some z) kwargs st =
    (Ok (Multi {| n := Some z; workers := [] |}),
     snd (apply_overrides c kwargs st)) /\
  spawned (snd (apply_overrides c kwargs st)) = spawned st.
Proof.
  intros Hin Hz.
  rewrite (factory_unfold c (Some z) kwargs st Hin).
  destruct (apply_overrides_ok c kwargs st Hin) as (st1 & -> & Hs1 & _).
  destruct z as [|z|z]; try lia. split; [reflexivity|assumption].
Qed.

Lemma apply_overrides_app c a b : forall st,
  In c scoring_function_classes ->
  apply_overrides c (a ++ b) st = apply_overrides c b (snd (apply_overrides c a st)).
Proof.
  induction a as [|[k v] a IH]; intros st Hin; cbn [apply_overrides app].
  - reflexivity.
  - destruct (class_kwargs c) as [allowed|e] eqn:Hc.
    2: { destruct Hin as [<-|[<-|[]]]; discriminate. }
    destruct (existsb (String.eqb k) allowed); now apply IH.
Qed.

(** X19: the classifier that the in-process [activity_model] loads is the one at
    the path of the [clf_path] override (the last override, whatever comes
    before it), and an error of the load is what the factory raises. *)
Theorem activity_model_loads_override :
  forall before path st,
    let kwargs := (before ++ [("clf_path", PStr path)])%list in
    get_scoring_function "activity_model" (Some 0%Z) kwargs st =
      (match pickle_load path with
       | Ok c => Ok (Single {| scoring_function := activity_model_obj {| clf := c |} |})
       | Raise e => Raise e
       end,
       snd (apply_overrides activity_model_class kwargs st)) /\
    activity_model_clf_path (snd (apply_overrides activity_model_class kwargs st))
      = PStr path.
Proof.
  intros before path st kwargs.
  assert (Hpath : activity_model_clf_path
                    (snd (apply_overrides activity_model_class kwargs st)) = PStr path).
  { unfold kwargs. rewrite apply_overrides_app by (simpl; auto). reflexivity. }
  split; [|exact Hpath].
  unfold_factory activity_model_class (Some 0%Z) kwargs st.
  cbv zeta. unfold Singleprocessing_init, instantiate, activity_model_init.
  rewrite Hpath. now destruct (pickle_load path).
Qed.

End FactoryEdges.

(** ** The further properties at work on the small world *)

(** The default ceiling 0.7: a similarity of 0.9 is scored 1, and scores
    are ordered as the similarities are. *)
Lemma cap_and_scale_range_witness :
  (exists q, cap_and_scale (9 # 10)%Q (PFloat (7 # 10)%Q) = Ok q /\ (q == 1)%Q) /\
  (forall q1 q2,
      cap_and_scale (1 # 10)%Q (PFloat (7 # 10)%Q) = Ok q1 ->
      cap_and_scale (3 # 10)%Q (PFloat (7 # 10)%Q) = Ok q2 ->
      (q1 <= q2)%Q).
Proof.
  destruct (cap_and_scale_range (PFloat (7 # 10)%Q) (7 # 10)%Q eq_refl eq_refl)
    as [Hrange Hmono].
  split.
  - destruct (Hrange (9 # 10)%Q) as (q & Hq & _ & Hsat & _).
    exists q. split; [exact Hq|]. apply Hsat. discriminate.
  - intros q1 q2. apply Hmono. discriminate.
Defined.

(** A ceiling given as the string "0.7" makes the first parsable descriptor
    raise. *)
Lemma tanimoto_bad_k_witness :
  tanimoto_call (chem := sample_chem) (PStr "0.7") sample_tanimoto ["?"; "CCN"]
  = Raise (TypeError "'<' not supported").
Proof.
  apply (proj1 (tanimoto_bad_k (chem := sample_chem) (PStr "0.7")
                  sample_tanimoto
                  "CCO" ["?"; "CCN"] eq_refl
                  (ex_intro _ "CCN" (ex_intro _ "CCN" (conj (or_intror (or_introl eq_refl))
                                                            eq_refl))))).
  reflexivity.
Defined.

Lemma tanimoto_call_length_witness :
  exists resluts,
    tanimoto_call (chem := sample_chem) (PFloat (7 # 10)%Q) sample_tanimoto
      ["?"; "CCN"; "CCO"]
    = Ok resluts /\
    length resluts = 3.
Proof.
  apply (tanimoto_call_length (chem := sample_chem) (PFloat (7 # 10)%Q) (7 # 10)%Q
           sample_tanimoto "CCO"
           ["?"; "CCN"; "CCO"]); [reflexivity|discriminate|reflexivity].
Defined.

(** Celebrex, with the default ceiling, has the score 1 against itself. *)
Lemma tanimoto_known_structure_witness :
  exists self q,
    tanimoto_init (chem := sample_chem) "Celebrex" initial_state
      = (Ok self, initial_state) /\
    tanimoto_call (chem := sample_chem) (PFloat (7 # 10)%Q) self
      ["C1(S(N)(=O)=O)=CC=C(N2C(C3=CC=C(C)C=C3)=CC(C(F)(F)F)=N2)C=C1"] = Ok [q] /\
    (q == 1)%Q.
Proof.
  destruct (tanimoto_known_structure (chem := sample_chem) "Celebrex"
              "C1(S(N)(=O)=O)=CC=C(N2C(C3=CC=C(C)C=C3)=CC(C(F)(F)F)=N2)C=C1"
              "C1(S(N)(=O)=O)=CC=C(N2C(C3=CC=C(C)C=C3)=CC(C(F)(F)F)=N2)C=C1"
              initial_state eq_refl eq_refl) as [Hinit Hcall].
  destruct (Hcall (PFloat (7 # 10)%Q) (7 # 10)%Q eq_refl eq_refl) as (q & Hq & H1).
  - discriminate.
  - reflexivity.
  - eexists. exists q. split; [exact Hinit|]. split; [exact Hq|exact H1].
Defined.

Lemma Worker_score_nonneg_witness :
  (0 <= 17 # 20)%Q.
Proof.
  apply (Worker_score_nonneg "C%10" {| received := "C%10 0.85"; closed := false |}
           (17 # 20)%Q).
  reflexivity.
Defined.

(** With the descriptor "C1CC1" and the answer "C1CC1 1.0", what reaches
    [float] is ".0". *)
Lemma float_argument_plain_witness :
  all_chars plain (lstrip ("C1CC1" ++ " ") "C1CC1 1.0") = true.
Proof.
  apply (float_argument_plain "C1CC1" {| received := "C1CC1 1.0"; closed := false |}
           "C1CC1 1.0").
  reflexivity.
Defined.

Lemma one_thread_per_worker_witness :
  exists st,
    reaches (pool 2) [answering [] line_mixed] (start batch) st /\
    NoDup (thread_names st) /\
    (forall i, In i (thread_names st) -> i < length (workers (pool 2))) /\
    length (threads st) <= length (workers (pool 2)).
Proof.
  assert (Hreach : reaches (pool 2) [answering [] line_mixed] (start batch)
            (dispatch [0; 1] (start batch))).
  { eapply reaches_pass; [discriminate|reflexivity|apply reaches_here]. }
  exists (dispatch [0; 1] (start batch)). split; [exact Hreach|].
  exact (one_thread_per_worker (pool 2) batch _ _ Hreach).
Defined.

Lemma slots_hold_own_scores_witness :
  exists qs,
    Arr1 [(1 # 4)%Q; (1 # 2)%Q; (1 # 2)%Q] = Arr1 qs /\
    length qs = length batch /\
    forall i s,
      nth_error batch i = Some s ->
      nth_error qs i = Some f0 \/
      exists t w q,
        In t ([answering [0] line_mixed; answering [1; 0] line_mixed] ++
              [answering [] line_mixed]) /\
        Worker_score s (reply t w s) = Ok q /\
        nth_error qs i = Some q.
Proof.
  apply (slots_hold_own_scores (pool 2) batch
           [answering [0] line_mixed; answering [1; 0] line_mixed]
           (answering [] line_mixed)).
  reflexivity.
Defined.

Lemma no_worker_raises_witness :
  Multiprocessing_call (pool 0) batch [answering [0] line_mixed]
    (answering [] line_mixed) = Some (Raise all_dead).
Proof.
  apply no_worker_raises; [reflexivity|discriminate].
Defined.

Lemma factory_pool_witness :
  exists st',
    get_scoring_function (chem := sample_chem) "activity_model" (Some 2%Z)
      [("clf_path", PStr "clf.pkl")] initial_state =
      (Ok (Multi {| n := Some 2%Z;
                    workers := repeat {| proc := "./multiprocess.py activity_model" |} 2 |}),
       st') /\
    spawned st' = ["./multiprocess.py activity_model"; "./multiprocess.py activity_model"] /\
    length (stdout st') = 2.
Proof.
  apply (proj1 (factory_pool (chem := sample_chem) activity_model_class 2%Z
                  [("clf_path", PStr "clf.pkl")] initial_state
                  (or_intror (or_introl eq_refl)) eq_refl) true).
  reflexivity.
Defined.

Lemma factory_negative_pool_witness :
  get_scoring_function (chem := sample_chem) "tanimoto" (Some (-1)%Z)
    [("k", PFloat (1 # 2)%Q)] initial_state =
    (Ok (Multi {| n := Some (-1)%Z; workers := [] |}),
     snd (apply_overrides tanimoto_class [("k", PFloat (1 # 2)%Q)] initial_state)) /\
  spawned (snd (apply_overrides tanimoto_class [("k", PFloat (1 # 2)%Q)] initial_state))
    = [].
Proof.
  apply (factory_negative_pool (chem := sample_chem) tanimoto_class (-1)%Z
           [("k", PFloat (1 # 2)%Q)] initial_state (or_introl eq_refl) eq_refl).
Defined.
